(** * park_report.park_scraper: the incremental results scraper

    A shallow embedding of [ParkScraper] (src/park_report/park_scraper.py)
    and the properties of its fetch planning, results extraction and
    dataset accumulation.

    Modelling conventions.
    - Python [int] is [Z]; [set] of ints is [gset Z]; a [dict] with string
      keys is [gmap string _]; [None]-able arguments are [option].
    - A method that mutates [self] and may raise is a function in the
      monad [M]: it takes the state (the object's attributes together with
      the log of external effects) and returns either the exception or the
      value, and the state reached.  An exception leaves the mutations
      made before it in place, as in Python.
    - The outside world (today's date, the browser driver, the web site)
      is an explicit [environment].
    - A [pandas.DataFrame] built from a list of dicts is the list of its
      rows, each a [gmap string pyval]; a key absent from a row is a
      missing cell (NaN) of that row. *)

From stdpp Require Import gmap strings list fin_maps.
From Stdlib Require Import ZArith Ascii.

#[local] Set Warnings "-clear-no-such-hyp".

Local Open Scope string_scope.
Local Open Scope list_scope.
Local Open Scope Z_scope.

(** ** Python values and exceptions *)

(** The values stored in the result dictionaries. *)
Inductive pyval : Type :=
  | PyNone
  | PyStr (s : string)
  | PyInt (z : Z).

#[global] Instance pyval_eq_dec : EqDecision pyval.
Proof. solve_decision. Defined.

(** The exceptions the scraper can leave uncaught. *)
Inductive exn : Type :=
  | ParkrunDayException   (* the [Exception] raised by [_init_browser] *)
  | WebDriverException    (* selenium: driver start or navigation failure *)
  | AttributeError        (* a method called on [None] *)
  | IndexError
  | HomepageError.        (* any failure of [_extract_homepage_info] *)

#[global] Instance exn_eq_dec : EqDecision exn.
Proof. solve_decision. Defined.

(** Pure computations that may raise. *)
Definition outcome (A : Type) : Type := exn + A.

#[global] Instance outcome_ret : MRet outcome := λ A x, inr x.
#[global] Instance outcome_bind : MBind outcome := λ A B f m,
  match m with
  | inl e => inl e
  | inr x => f x
  end.

(** [o.method()] where [o] may be [None]. *)
Definition deref {A : Type} (o : option A) : outcome A :=
  match o with
  | Some x => inr x
  | None => inl AttributeError
  end.

(** ** Strings *)

(** [s.split(sep)] for a one-character separator: never an empty list. *)
Fixpoint split (sep : Ascii.ascii) (s : string) : list string :=
  match s with
  | EmptyString => [EmptyString]
  | String c s' =>
      if decide (c = sep) then EmptyString :: split sep s'
      else match split sep s' with
           | h :: t => String c h :: t
           | [] => [String c EmptyString]
           end
  end.

(** [l[-1]] *)
Definition index_last {A : Type} (l : list A) : outcome A :=
  match last l with
  | Some x => inr x
  | None => inl IndexError
  end.

(** ** The document tree, as far as the scraper observes it *)

(** The first [<a>] of the name cell: [.get("href")]. *)
Record tag_a : Type := { a_href : option string }.

(** [result.find("td", {"class": "Results-table-td Results-table-td--name"})]:
    [.find("a")]. *)
Record td_name : Type := { name_find_a : option tag_a }.

(** [result.find("td", {"class": "Results-table-td--time"})]: the text of
    [.find("div")], when there is such a [<div>]. *)
Record td_time : Type := { time_find_div : option string }.

(** A [<tr class="Results-table-row">] element. *)
Record tr : Type := {
  tr_attrs : gmap string string;
  find_td_name : option td_name;
  find_td_time : option td_time
}.

(** [result.get(attr)]: the attribute's value, [None] when it is not set. *)
Definition get (result : tr) (attr : string) : pyval :=
  match tr_attrs result !! attr with
  | Some v => PyStr v
  | None => PyNone
  end.

(** A parsed page.  [_extract_homepage_info] is string processing of the
    landing page that no property below depends on: the document carries
    its outcome.  [results_table_rows] is
    [find_all("tr", {"class": "Results-table-row"})], in document order. *)
Record soup : Type := {
  homepage_info : outcome (string * Z * gmap string string);
  results_table_rows : list tr
}.

(** ** Results extraction *)

Abbreviation record := (gmap string pyval).
Abbreviation DataFrame := (list (gmap string pyval)).

(** The body of the loop of [_extract_results]: the dictionary built for
    one row. *)
Definition extract_row (result : tr) : outcome record :=
  let this_result : record := {[ "name" := get result "data-name" ]} in
  let this_result := <[ "position" := get result "data-position" ]> this_result in
  if decide (this_result !! "name" ≠ Some (PyStr "Unknown")) then
    td ← deref (find_td_name result);
    a ← deref (name_find_a td);
    href ← deref (a_href a);
    parkrun_id ← index_last (split "/"%char href);
    let this_result := <[ "parkrun_id" := PyStr parkrun_id ]> this_result in
    td ← deref (find_td_time result);
    time ← deref (time_find_div td);
    let this_result := <[ "time" := PyStr time ]> this_result in
    let this_result := <[ "achievement" := get result "data-achievement" ]> this_result in
    let this_result := <[ "agegrade" := get result "data-agegrade" ]> this_result in
    let this_result := <[ "agegroup" := get result "data-agegroup" ]> this_result in
    let this_result := <[ "club" := get result "data-club" ]> this_result in
    let this_result := <[ "gender" := get result "data-gender" ]> this_result in
    let this_result := <[ "runs" := get result "data-runs" ]> this_result in
    mret this_result
  else mret this_result.

(** [for result in results: ...; results_data.append(this_result)] *)
Fixpoint extract_rows (results : list tr) : outcome DataFrame :=
  match results with
  | [] => mret []
  | result :: results' =>
      this_result ← extract_row result;
      results_data ← extract_rows results';
      mret (this_result :: results_data)
  end.

Definition _extract_results (event_soup : soup) : outcome DataFrame :=
  extract_rows (results_table_rows event_soup).

(** [event_results_df["event_no"] = event_no] *)
Definition set_event_no (event_no : Z) (df : DataFrame) : DataFrame :=
  (λ row : record, <[ "event_no" := PyInt event_no ]> row) <$> df.

(** ** The outside world *)

Inductive day : Type :=
  | Monday | Tuesday | Wednesday | Thursday | Friday | Saturday | Sunday.

(** [datetime.date.weekday()] *)
Definition weekday (d : day) : Z :=
  match d with
  | Monday => 0 | Tuesday => 1 | Wednesday => 2 | Thursday => 3
  | Friday => 4 | Saturday => 5 | Sunday => 6
  end.

Inductive url : Type :=
  | Homepage (park_id : string)
      (* f"https://www.parkrun.org.uk/{park_id}/" *)
  | EventResults (park_id : string) (event_no : Z).
      (* f"https://www.parkrun.org.uk/{park_id}/results/{event_no}" *)

#[global] Instance url_eq_dec : EqDecision url.
Proof. solve_decision. Defined.

(** What the scraper does to the outside world, in the order it does it. *)
Inductive effect : Type :=
  | ChromeStarted              (* [webdriver.Chrome(...)] returned *)
  | BrowserGet (u : url)       (* [self._browser.get(url)] was called *)
  | Sleep (seconds : Z).       (* [time.sleep(seconds)] *)

#[global] Instance effect_eq_dec : EqDecision effect.
Proof. solve_decision. Defined.

(** The injected dependencies.  What the site serves may depend on
    everything the scraper did before ([None]: navigation fails). *)
Record environment : Type := {
  today : day;
  chrome_starts : bool;
  page_source : list effect → url → option soup
}.

(** ** Stateful computations that may raise *)

Definition ST (S A : Type) : Type := S → outcome A * S.

#[global] Instance ST_ret {S} : MRet (ST S) := λ A x σ, (inr x, σ).
#[global] Instance ST_bind {S} : MBind (ST S) := λ A B f m σ,
  match m σ with
  | (inl e, σ') => (inl e, σ')
  | (inr x, σ') => f x σ'
  end.

Definition raise {S A} (e : exn) : ST S A := λ σ, (inl e, σ).

Definition lift_outcome {S A} (r : outcome A) : ST S A := λ σ, (r, σ).

(** Computations on the outside world alone. *)
Abbreviation IO := (ST (list effect)).

Definition log (ev : effect) : IO unit := λ w, (inr (), w ++ [ev]).

(** ** The scraper object *)

Record ParkScraper : Type := {
  _avoid_saturday : bool;
  _park_id : string;
  _event_name : string;
  _last_event_no : Z;
  _event_stats : gmap string string;
  _fetched_events : gset Z;
  _dataset : option DataFrame
}.

Definition set_fetched_events (s : ParkScraper) (v : gset Z) : ParkScraper :=
  {| _avoid_saturday := _avoid_saturday s; _park_id := _park_id s;
     _event_name := _event_name s; _last_event_no := _last_event_no s;
     _event_stats := _event_stats s;
     _fetched_events := v; _dataset := _dataset s |}.

Definition set_dataset (s : ParkScraper) (v : option DataFrame) : ParkScraper :=
  {| _avoid_saturday := _avoid_saturday s; _park_id := _park_id s;
     _event_name := _event_name s; _last_event_no := _last_event_no s;
     _event_stats := _event_stats s;
     _fetched_events := _fetched_events s; _dataset := v |}.

(** The object together with the world it acts on. *)
Record state : Type := {
  self : ParkScraper;
  world : list effect
}.

(** Methods of a constructed object. *)
Abbreviation M := (ST state).

Definition liftIO {A} (c : IO A) : M A := λ σ,
  let '(r, w) := c (world σ) in (r, {| self := self σ; world := w |}).

Definition get_self : M ParkScraper := λ σ, (inr (self σ), σ).

Definition modify_self (f : ParkScraper → ParkScraper) : M unit := λ σ,
  (inr (), {| self := f (self σ); world := world σ |}).

(** The rows of the dataset ([None] and the empty frame have none). *)
Definition rows (s : ParkScraper) : DataFrame := default [] (_dataset s).

Section WithEnvironment.

Variable env : environment.

(** *** Construction *)

Definition _is_today_saturday : bool :=
  bool_decide (weekday (today env) = 5).

Definition _init_browser (avoid_saturday : bool) : IO unit :=
  if negb avoid_saturday || _is_today_saturday then
    raise ParkrunDayException
  else if chrome_starts env then log ChromeStarted
  else raise WebDriverException.

Definition _fetch_page (u : url) : IO soup := λ w,
  (match page_source env w u with
   | Some site => inr site
   | None => inl WebDriverException
   end, w ++ [BrowserGet u]).

Definition _extract_homepage_info (homepage_soup : soup)
  : outcome (string * Z * gmap string string) :=
  homepage_info homepage_soup.

Definition _fetch_event_summary (park_id : string)
  : IO (string * Z * gmap string string) :=
  homepage_soup ← _fetch_page (Homepage park_id);
  lift_outcome (_extract_homepage_info homepage_soup).

Definition __init__ (park_id : string) (avoid_saturday : bool)
  : IO ParkScraper :=
  _init_browser avoid_saturday ;;
  '(event_name, last_event_no, event_stats) ← _fetch_event_summary park_id;
  mret {| _avoid_saturday := avoid_saturday; _park_id := park_id;
          _event_name := event_name; _last_event_no := last_event_no;
          _event_stats := event_stats;
          _fetched_events := ∅; _dataset := None |}.

(** *** Planning *)

(** [np.arange(start, stop)] and [range(n)] on integers. *)
Definition arange (start stop : Z) : list Z := seqZ start (stop - start).
Definition range (n : Z) : list Z := seqZ 0 n.

(** Truth value of an [int]-or-[None] argument: [None] and [0] are
    false.  Where an argument is true it is [Some z], so the [default]
    below is never taken. *)
Definition truthy (x : option Z) : bool :=
  match x with
  | Some z => bool_decide (z ≠ 0)
  | None => false
  end.

(** The first assignment to [events_to_fetch] in [fetch_results]. *)
Definition requested_events (s : ParkScraper)
    (from_event to_event : option Z) (last_events : Z) : list Z :=
  if truthy from_event && truthy to_event then
    arange (default 0 from_event) (default 0 to_event + 1)
  else (λ n, _last_event_no s - n) <$> range last_events.

(** [events_to_fetch] as it reaches [if events_to_fetch:].  Python does
    not specify the order in which a set is iterated; [elements] stands
    for it. *)
Definition events_to_fetch (s : ParkScraper)
    (from_event to_event : option Z) (last_events : Z) : list Z :=
  let events_to_fetch := requested_events s from_event to_event last_events in
  let events_to_fetch : list Z :=
    elements ((list_to_set events_to_fetch : gset Z) ∖ _fetched_events s) in
  filter (λ event_no, event_no ≤ _last_event_no s) events_to_fetch.

(** *** Fetching *)

Definition _fetch_single_event_results (event_no : Z) : M unit :=
  s ← get_self;
  event_page_soup ← liftIO (_fetch_page (EventResults (_park_id s) event_no));
  event_results_df ← lift_outcome (_extract_results event_page_soup);
  let event_results_df := set_event_no event_no event_results_df in
  modify_self (λ s,
    match _dataset s with
    | None => set_dataset s (Some event_results_df)
    | Some dataset => set_dataset s (Some (dataset ++ event_results_df))
    end).

Fixpoint _fetch_event_results (events_to_fetch : list Z) : M unit :=
  match events_to_fetch with
  | [] => mret ()
  | event_no :: events_to_fetch' =>
      _fetch_single_event_results event_no ;;
      modify_self (λ s,
        set_fetched_events s ({[ event_no ]} ∪ _fetched_events s)) ;;
      liftIO (log (Sleep 1)) ;;
      _fetch_event_results events_to_fetch'
  end.


Definition fetch_results (from_event to_event : option Z) (last_events : Z)
  : M unit :=
  s ← get_self;
  let events_to_fetch := events_to_fetch s from_event to_event last_events in
  if bool_decide (events_to_fetch ≠ []) then
    _fetch_event_results events_to_fetch
  else mret ().

(** A caller that issues several [fetch_results] calls on one object,
    going on after a call that raised. *)
Definition call : Type := option Z * option Z * Z.

Definition run_call (σ : state) (c : call) : state :=
  let '(from_event, to_event, last_events) := c in
  (fetch_results from_event to_event last_events σ).2.

Definition run_calls (calls : list call) (σ : state) : state :=
  foldl run_call σ calls.

(** One session: the object is constructed in a fresh process, then
    receives the calls. *)
Definition session (park_id : string) (avoid_saturday : bool)
    (calls : list call) : outcome state :=
  match __init__ park_id avoid_saturday [] with
  | (inr s, w) => inr (run_calls calls {| self := s; world := w |})
  | (inl ex, _) => inl ex
  end.

(** Everything a session did to the outside world, also when its
    construction raised. *)
Definition session_log (park_id : string) (avoid_saturday : bool)
    (calls : list call) : list effect :=
  match __init__ park_id avoid_saturday [] with
  | (inr s, w) => world (run_calls calls {| self := s; world := w |})
  | (inl _, w) => w
  end.

End WithEnvironment.

(** ** Vocabulary of the properties *)

(** The two kinds of request of a plan, and the candidates of each. *)
Inductive request : Type :=
  | RangeRequest (from_event to_event : Z)
  | LastRequest (N : Z).

Definition candidate (last_event_no : Z) (r : request) (x : Z) : Prop :=
  match r with
  | RangeRequest from_event to_event => from_event ≤ x ≤ to_event
  | LastRequest N => ∃ i, 0 ≤ i ≤ N - 1 ∧ x = last_event_no - i
  end.

(** The request a call of [fetch_results] makes: the branch its first
    [if] takes. *)
Definition request_of (from_event to_event : option Z) (last_events : Z)
  : request :=
  match from_event, to_event with
  | Some f, Some t =>
      if bool_decide (f ≠ 0 ∧ t ≠ 0) then RangeRequest f t
      else LastRequest last_events
  | _, _ => LastRequest last_events
  end.

(** The results page of an event, as served in state [σ], extracted. *)
Definition served (env : environment) (event_no : Z) (σ : state)
  : outcome DataFrame :=
  match page_source env (world σ) (EventResults (_park_id (self σ)) event_no) with
  | Some site => _extract_results site
  | None => inl WebDriverException
  end.

(** The state after the rows [df] of event [event_no] were fetched, merged
    and paced. *)
Definition merged (event_no : Z) (df : DataFrame) (σ : state) : state :=
  {| self :=
       set_fetched_events
         (set_dataset (self σ)
            (Some (rows (self σ) ++ set_event_no event_no df)))
         ({[ event_no ]} ∪ _fetched_events (self σ));
     world :=
       world σ ++ [BrowserGet (EventResults (_park_id (self σ)) event_no);
                   Sleep 1] |}.

(** The effects of fetching the events [done], a delay after each. *)
Definition paced (park_id : string) (done : list Z) : list effect :=
  done ≫= λ event_no, [BrowserGet (EventResults park_id event_no); Sleep 1].

Definition is_get (ev : effect) : bool :=
  match ev with BrowserGet _ => true | _ => false end.
Definition is_sleep (ev : effect) : bool :=
  match ev with Sleep _ => true | _ => false end.

(** Number of page fetches and of delays in a log. *)
Definition page_fetches (w : list effect) : nat := length (filter is_get w).
Definition delays (w : list effect) : nat := length (filter is_sleep w).

(** The rows of the dataset that belong to one event. *)
Definition rows_of_event (event_no : Z) (df : DataFrame) : DataFrame :=
  filter (λ row : record, row !! "event_no" = Some (PyInt event_no)) df.

(** The pairing of the fetched set and the dataset: every row belongs to
    a fetched event, and the rows of a fetched event are the rows
    extracted from a page that was fetched for it. *)
Definition consistent (env : environment) (σ : state) : Prop :=
  (∀ row : record, row ∈ rows (self σ) →
     ∃ e, row !! "event_no" = Some (PyInt e) ∧ e ∈ _fetched_events (self σ)) ∧
  (∀ e, e ∈ _fetched_events (self σ) →
     ∃ w site df,
       (w ++ [BrowserGet (EventResults (_park_id (self σ)) e)]) `prefix_of` world σ ∧
       page_source env w (EventResults (_park_id (self σ)) e) = Some site ∧
       _extract_results site = inr df ∧
       rows_of_event e (rows (self σ)) = set_event_no e df).



(** A row the extraction can read: it is named "Unknown", or it has the
    name cell with a link that has a target, and the time cell with its
    [div]. *)
Definition complete_row (result : tr) : Prop :=
  get result "data-name" = PyStr "Unknown" ∨
  ∃ td a href td' time,
    find_td_name result = Some td ∧ name_find_a td = Some a ∧
    a_href a = Some href ∧
    find_td_time result = Some td' ∧ time_find_div td' = Some time.

(** ** A small site, for concrete runs *)

Definition row_ann : tr :=
  {| tr_attrs :=
       list_to_map
         [("data-name", "Ann"); ("data-position", "1");
          ("data-achievement", "New PB!"); ("data-agegrade", "61.20");
          ("data-agegroup", "SW30-34"); ("data-club", "");
          ("data-gender", "Female"); ("data-runs", "17")];
     find_td_name :=
       Some {| name_find_a :=
                 Some {| a_href := Some "https://www.parkrun.org.uk/rothaypark/parkrunner/123" |} |};
     find_td_time := Some {| time_find_div := Some "20:01" |} |}.

Definition row_unknown : tr :=
  {| tr_attrs := list_to_map [("data-name", "Unknown"); ("data-position", "2")];
     find_td_name := None;
     find_td_time := None |}.

(** A page whose landing-page reading reports 12 events and whose results
    table has the two rows above. *)
Definition example_page : soup :=
  {| homepage_info := inr ("Rothay Park parkrun", 12, ∅);
     results_table_rows := [row_ann; row_unknown] |}.

(** A Monday on which the site serves [example_page] for every address
    but the results of event 12, where navigation fails. *)
Definition example_env : environment :=
  {| today := Monday;
     chrome_starts := true;
     page_source := λ _ u,
       match u with
       | Homepage _ => Some example_page
       | EventResults _ event_no =>
           if bool_decide (event_no = 12) then None else Some example_page
       end |}.

(** A scraper of an event with [last_event_no] completed instances that
    has fetched [fetched] (and holds no rows). *)
Definition example_scraper (last_event_no : Z) (fetched : gset Z) : ParkScraper :=
  {| _avoid_saturday := true; _park_id := "rothaypark";
     _event_name := "Rothay Park parkrun"; _last_event_no := last_event_no;
     _event_stats := ∅; _fetched_events := fetched; _dataset := None |}.

Definition example_state (last_event_no : Z) (fetched : gset Z) : state :=
  {| self := example_scraper last_event_no fetched; world := [] |}.

(** ** Further vocabulary *)

(** Two objects agree on what construction stored about the event. *)
Definition same_summary (s s' : ParkScraper) : Prop :=
  _avoid_saturday s' = _avoid_saturday s ∧ _park_id s' = _park_id s ∧
  _event_name s' = _event_name s ∧ _last_event_no s' = _last_event_no s ∧
  _event_stats s' = _event_stats s.

(** The addresses a log fetched, in order. *)
Definition gets (w : list effect) : list url :=
  omap (λ ev, match ev with BrowserGet u => Some u | _ => None end) w.

(** A site that serves the same page for an address whatever happened
    before. *)
Definition static (env : environment) : Prop :=
  ∀ w w' u, page_source env w u = page_source env w' u.

(** The stamped frame of an event on a static site (no rows where the
    page cannot be fetched or extracted). *)
Definition frame_of (env : environment) (park_id : string) (event_no : Z)
  : DataFrame :=
  match page_source env [] (EventResults park_id event_no) with
  | Some site =>
      match _extract_results site with
      | inr df => set_event_no event_no df
      | inl _ => []
      end
  | None => []
  end.

(** [sep.join(l)] for a one-character separator. *)
Fixpoint join (sep : Ascii.ascii) (l : list string) : string :=
  match l with
  | [] => EmptyString
  | [s] => s
  | s :: l' => String.append s (String sep (join sep l'))
  end.

(** The string has no occurrence of the character. *)
Definition free_of (sep : Ascii.ascii) (s : string) : Prop :=
  Forall (λ c, c ≠ sep) (String.list_ascii_of_string s).

(** The site of [example_env], visited on a Saturday. *)
Definition saturday_env : environment :=
  {| today := Saturday;
     chrome_starts := true;
     page_source := page_source example_env |}.

(** A page without results rows. *)
Definition empty_page : soup :=
  {| homepage_info := inr ("Rothay Park parkrun", 12, ∅);
     results_table_rows := [] |}.

(** A site that has a results page for every number, without rows for
    the numbers below 1. *)
Definition lenient_env : environment :=
  {| today := Monday;
     chrome_starts := true;
     page_source := λ _ u,
       match u with
       | Homepage _ => Some example_page
       | EventResults _ event_no =>
           if bool_decide (event_no < 1) then Some empty_page
           else Some example_page
       end |}.

(** ** The landing page, in detail *)

(** [_extract_homepage_info], which the scraper's [soup] above carries
    only the outcome of.  Python's [str.strip()] and [int(str)] are taken
    as given: [strip], and [int] with [None] where [int()] raises
    [ValueError]. *)
Module Homepage.

(** The exceptions the reading can raise. *)
Inductive error : Type :=
  | AttributeError
  | ValueError
  | KeyError (key : string).

Definition reading (A : Type) : Type := error + A.

#[global] Instance reading_ret : MRet reading := λ A x, inr x.
#[global] Instance reading_bind : MBind reading := λ A B f m,
  match m with
  | inl e => inl e
  | inr x => f x
  end.

(** The landing page, as far as the reading observes it: the text of the
    first [h1] of class [paddetandb], if any; the texts of the [div]s of
    class [aStat]; and, for each [div] of class [records], the texts of
    its [span]s. *)
Record document : Type := {
  find_h1 : option string;
  find_all_aStat : list string;
  find_all_records : list (list string)
}.

(** [s.replace(old, "")] for a one-character [old]. *)
Fixpoint remove (old : Ascii.ascii) (s : string) : string :=
  match s with
  | EmptyString => EmptyString
  | String c s' =>
      if decide (c = old) then remove old s' else String c (remove old s')
  end.

(** [c] put in front of the first piece. *)
Definition cons_head (c : Ascii.ascii) (pieces : list string) : list string :=
  match pieces with
  | h :: t => String c h :: t
  | [] => [String c EmptyString]
  end.

(** [s.split(sep)] for the two-character separator [a b]: cut at the
    leftmost occurrence, go on after it. *)
Fixpoint split2 (a b : Ascii.ascii) (s : string) : list string :=
  match s with
  | EmptyString => [EmptyString]
  | String c s' =>
      match s' with
      | String d s'' =>
          if decide (c = a ∧ d = b) then EmptyString :: split2 a b s''
          else cons_head c (split2 a b s')
      | EmptyString => [String c EmptyString]
      end
  end.

Definition newline : Ascii.ascii := "010"%char.

(** [dict(items)], continued from [event_stats]: every item must have two
    elements, and a later key overwrites an earlier one. *)
Fixpoint dict_update (event_stats : gmap string string)
    (items : list (list string)) : reading (gmap string string) :=
  match items with
  | [] => mret event_stats
  | [k; v] :: items' => dict_update (<[ k := v ]> event_stats) items'
  | _ :: _ => inl ValueError
  end.

Definition dict (items : list (list string)) : reading (gmap string string) :=
  dict_update ∅ items.

Section Extract.

Variable strip : string → string.
Variable int : string → option Z.

(** [for record in event_records: ...] *)
Fixpoint merge_records (event_stats : gmap string string)
    (event_records : list (list string)) : reading (gmap string string) :=
  match event_records with
  | [] => mret event_stats
  | [record_type; record_details] :: event_records' =>
      let record_type := remove ":"%char record_type in
      merge_records
        (<[ record_type := remove newline (strip record_details) ]> event_stats)
        event_records'
  | _ :: _ => inl ValueError
  end.

Definition _extract_homepage_info (soup : document)
  : reading (string * Z * gmap string string) :=
  h1 ← match find_h1 soup with
       | Some h1 => inr h1
       | None => inl AttributeError
       end;
  let event_name := strip h1 in
  let footer_stats := find_all_aStat soup in
  event_stats ←
    dict ((λ s, split2 ":"%char " "%char (remove newline (strip s)))
            <$> footer_stats);
  last_event_no ← match event_stats !! "Events" with
                  | Some v => inr v
                  | None => inl (KeyError "Events")
                  end;
  event_stats ← merge_records event_stats (find_all_records soup);
  n ← match int last_event_no with
      | Some n => inr n
      | None => inl ValueError
      end;
  mret (event_name, n, event_stats).

(** *** Vocabulary *)

(** The items the footer statistics give to [dict]. *)
Definition footer_items (soup : document) : list (list string) :=
  (λ s, split2 ":"%char " "%char (remove newline (strip s)))
    <$> find_all_aStat soup.

(** The records as items: type without colons, details stripped and
    without newlines. *)
Definition record_items (soup : document) : list (list string) :=
  (λ record,
     match record with
     | [record_type; record_details] =>
         [remove ":"%char record_type; remove newline (strip record_details)]
     | _ => record
     end) <$> find_all_records soup.

End Extract.

(** The value an item gives to key [k]. *)
Definition item_value (k : string) (item : list string) : option string :=
  match item with
  | [k'; v] => if decide (k' = k) then Some v else None
  | _ => None
  end.

(** The value of the last item with key [k]. *)
Definition lookup_last (k : string) (items : list (list string))
  : option string :=
  last (omap (item_value k) items).

Definition pairs (items : list (list string)) : Prop :=
  Forall (λ item, length item = 2%nat) items.

(** The map after the items, for items that are pairs. *)
Definition updates (event_stats : gmap string string)
    (items : list (list string)) : gmap string string :=
  foldl (λ m item,
           match item with
           | [k; v] => <[ k := v ]> m
           | _ => m
           end) event_stats items.

(** Instances for concrete runs: ASCII blanks stripped, unsigned decimal
    numerals read. *)
Definition is_blank (c : Ascii.ascii) : bool :=
  bool_decide (c = " "%char ∨ c = "009"%char ∨ c = "010"%char ∨
               c = "011"%char ∨ c = "012"%char ∨ c = "013"%char).

Fixpoint lstrip (l : list Ascii.ascii) : list Ascii.ascii :=
  match l with
  | c :: l' => if is_blank c then lstrip l' else l
  | [] => []
  end.

Definition ascii_strip (s : string) : string :=
  String.string_of_list_ascii
    (reverse (lstrip (reverse (lstrip (String.list_ascii_of_string s))))).

Definition digit (c : Ascii.ascii) : option Z :=
  let n := Z.of_N (Ascii.N_of_ascii c) in
  if bool_decide (48 ≤ n ≤ 57) then Some (n - 48) else None.

Fixpoint decimal_from (acc : Z) (s : string) : option Z :=
  match s with
  | EmptyString => Some acc
  | String c s' =>
      match digit c with
      | Some d => decimal_from (10 * acc + d) s'
      | None => None
      end
  end.

Definition decimal (s : string) : option Z :=
  match s with
  | EmptyString => None
  | _ => decimal_from 0 s
  end.

Definition example_document : document :=
  {| find_h1 := Some "  Rothay Park parkrun  ";
     find_all_aStat :=
       ["Events: 12"; " Finishers: 3,402 "; "Average finish time: 00:29:30"];
     find_all_records :=
       [["Female record:"; " Ann 18:03 "]; ["Events:"; "many"]] |}.

End Homepage.

(** ** Basic facts *)

Ltac st_unfold :=
  unfold mbind, mret, ST_bind, ST_ret, outcome_bind, outcome_ret,
    raise, lift_outcome, liftIO, log, get_self, modify_self in *.

Section Loop.

Variable env : environment.

Lemma fetch_single_served event_no σ :
  _fetch_single_event_results env event_no σ =
    match served env event_no σ with
    | inl ex =>
        (inl ex,
         {| self := self σ;
            world := world σ
              ++ [BrowserGet (EventResults (_park_id (self σ)) event_no)] |})
    | inr df =>
        (inr (),
         {| self := set_dataset (self σ)
                      (Some (rows (self σ) ++ set_event_no event_no df));
            world := world σ
              ++ [BrowserGet (EventResults (_park_id (self σ)) event_no)] |})
    end.
Proof.
  unfold _fetch_single_event_results, served, _fetch_page, rows.
  st_unfold. simpl.
  destruct (page_source env _ _) as [site|]; [|done].
  destruct (_extract_results site) as [ex|df]; [done|].
  simpl. destruct (_dataset (self σ)); done.
Qed.

Lemma loop_nil σ : _fetch_event_results env [] σ = (inr (), σ).
Proof. done. Qed.

Lemma loop_cons_fail event_no events σ ex :
  served env event_no σ = inl ex →
  _fetch_event_results env (event_no :: events) σ =
    (inl ex,
     {| self := self σ;
        world := world σ
          ++ [BrowserGet (EventResults (_park_id (self σ)) event_no)] |}).
Proof.
  intros Hs. simpl. unfold mbind at 1, ST_bind at 1.
  unfold mbind at 1, ST_bind at 1. unfold mbind at 1, ST_bind at 1.
  by rewrite fetch_single_served, Hs.
Qed.

Lemma loop_cons_ok event_no events σ df :
  served env event_no σ = inr df →
  _fetch_event_results env (event_no :: events) σ =
    _fetch_event_results env events (merged event_no df σ).
Proof.
  intros Hs. simpl. unfold mbind at 1, ST_bind at 1.
  unfold mbind at 1, ST_bind at 1. unfold mbind at 1, ST_bind at 1.
  rewrite fetch_single_served, Hs. st_unfold. simpl.
  unfold merged. by rewrite <- (assoc_L (++)).
Qed.

End Loop.

Section LoopFacts.

Variable env : environment.

(** The loop never touches the attributes set at construction. *)
Lemma loop_attrs events σ :
  _park_id (self (_fetch_event_results env events σ).2) = _park_id (self σ) ∧
  _last_event_no (self (_fetch_event_results env events σ).2)
    = _last_event_no (self σ).
Proof.
  revert σ. induction events as [|e events IH]; intros σ; [done|].
  destruct (served env e σ) as [ex|df] eqn:Hs.
  - by rewrite (loop_cons_fail _ _ _ _ _ Hs).
  - rewrite (loop_cons_ok _ _ _ _ _ Hs). apply (IH (merged e df σ)).
Qed.

(** A run of the loop: the events [done] were merged, each followed by
    a delay, and the loop stopped at the head of [rest], if any. *)
Lemma loop_shape events σ :
  ∃ done rest,
    events = done ++ rest ∧
    _fetched_events (self (_fetch_event_results env events σ).2)
      = list_to_set done ∪ _fetched_events (self σ) ∧
    world (_fetch_event_results env events σ).2
      = world σ ++ paced (_park_id (self σ)) done
          ++ match rest with
             | [] => []
             | e :: _ => [BrowserGet (EventResults (_park_id (self σ)) e)]
             end ∧
    rows (self σ) `prefix_of` rows (self (_fetch_event_results env events σ).2) ∧
    match (_fetch_event_results env events σ).1 with
    | inr _ => rest = []
    | inl _ => rest ≠ []
    end.
Proof.
  revert σ. induction events as [|e events IH]; intros σ.
  - exists [], []. rewrite loop_nil. simpl.
    split_and!; [done|set_solver|by rewrite !(right_id_L [] (++))|done|done].
  - destruct (served env e σ) as [ex|df] eqn:Hs.
    + exists [], (e :: events). rewrite (loop_cons_fail _ _ _ _ _ Hs). simpl.
      split_and!; [done|set_solver|done|done|done].
    + rewrite (loop_cons_ok _ _ _ _ _ Hs).
      destruct (IH (merged e df σ)) as (done & rest & -> & Hf & Hw & Hr & Hres).
      exists (e :: done), rest. split_and!.
      * done.
      * rewrite Hf. simpl. set_solver.
      * rewrite Hw. simpl. by rewrite <- !(assoc_L (++)).
      * etrans; [|exact Hr]. simpl. unfold rows at 2. simpl.
        by apply prefix_app_r.
      * done.
Qed.

(** A loop that returns has fetched every event it was given. *)
Lemma loop_returns events σ σ' :
  _fetch_event_results env events σ = (inr (), σ') →
  _fetched_events (self σ') = list_to_set events ∪ _fetched_events (self σ) ∧
  world σ' = world σ ++ paced (_park_id (self σ)) events.
Proof.
  intros Hrun.
  destruct (loop_shape events σ) as (done & rest & -> & Hf & Hw & _ & Hres).
  rewrite Hrun in Hf, Hw, Hres. simpl in *. subst rest.
  rewrite (right_id_L [] (++)) in *. by rewrite (right_id_L [] (++)) in Hw.
Qed.


End LoopFacts.

(** ** The planner *)

Section Planner.

Variable s : ParkScraper.

Lemma truthy_spec (x : option Z) :
  truthy x = true ↔ ∃ z, x = Some z ∧ z ≠ 0.
Proof.
  destruct x as [z|]; simpl.
  - rewrite bool_decide_eq_true. naive_solver.
  - naive_solver.
Qed.

Lemma elem_of_arange start stop x :
  x ∈ arange start (stop + 1) ↔ start ≤ x ≤ stop.
Proof. unfold arange. rewrite elem_of_seqZ. lia. Qed.

Lemma elem_of_last_events last_events x :
  x ∈ ((λ n, _last_event_no s - n) <$> range last_events) ↔
  ∃ i, 0 ≤ i ≤ last_events - 1 ∧ x = _last_event_no s - i.
Proof.
  unfold range. rewrite list_elem_of_fmap. split.
  - intros (i & -> & Hi%elem_of_seqZ). exists i. lia.
  - intros (i & Hi & ->). exists i. rewrite elem_of_seqZ. lia.
Qed.

(** The list the first [if] of [fetch_results] builds holds the
    candidates of the request. *)
Lemma elem_of_requested_events from_event to_event last_events x :
  x ∈ requested_events s from_event to_event last_events ↔
  candidate (_last_event_no s) (request_of from_event to_event last_events) x.
Proof.
  unfold requested_events, request_of.
  destruct from_event as [f|], to_event as [t|]; simpl;
    rewrite ?andb_false_r; try apply elem_of_last_events.
  destruct (decide (f ≠ 0)) as [Hf|Hf], (decide (t ≠ 0)) as [Ht|Ht];
    rewrite ?(bool_decide_eq_true_2 _ Hf), ?(bool_decide_eq_false_2 _ Hf),
      ?(bool_decide_eq_true_2 _ Ht), ?(bool_decide_eq_false_2 _ Ht); simpl.
  - rewrite bool_decide_eq_true_2 by done. apply elem_of_arange.
  - rewrite bool_decide_eq_false_2 by tauto. apply elem_of_last_events.
  - rewrite bool_decide_eq_false_2 by tauto. apply elem_of_last_events.
  - rewrite bool_decide_eq_false_2 by tauto. apply elem_of_last_events.
Qed.

Lemma elem_of_events_to_fetch from_event to_event last_events x :
  x ∈ events_to_fetch s from_event to_event last_events ↔
  x ∈ requested_events s from_event to_event last_events ∧
  (x ∉ _fetched_events s) ∧ x ≤ _last_event_no s.
Proof.
  unfold events_to_fetch. rewrite list_elem_of_filter, elem_of_elements,
    elem_of_difference, elem_of_list_to_set. tauto.
Qed.

Lemma NoDup_events_to_fetch from_event to_event last_events :
  NoDup (events_to_fetch s from_event to_event last_events).
Proof. unfold events_to_fetch. apply NoDup_filter, NoDup_elements. Qed.

End Planner.

(** ** Construction: the politeness guard *)

(** [_init_browser] raises its exception exactly when the flag is off or
    today is Saturday. *)
Lemma init_browser_refuses env avoid_saturday w :
  _init_browser env avoid_saturday w = (inl ParkrunDayException, w) ↔
  avoid_saturday = false ∨ today env = Saturday.
Proof.
  unfold _init_browser, _is_today_saturday, raise, log.
  destruct avoid_saturday; simpl.
  - destruct (today env), (chrome_starts env); simpl; naive_solver.
  - naive_solver.
Qed.

(** C1 (the code departs from the claim): a caller who opts out of the
    guard with [avoid_saturday=False] is refused on every day of the week:
    construction raises the parkrun-day exception before the browser is
    started or any page is fetched. *)
Theorem C1_opt_out_is_always_refused env park_id w :
  __init__ env park_id false w = (inl ParkrunDayException, w).
Proof. done. Qed.

(** ** The plan of a call *)


(** The example of the specification: fetched {10, 11}, 12 events, the
    last 5 requested. *)
Example plan_last_5 :
  (list_to_set (events_to_fetch (example_scraper 12 {[10; 11]}) None None 5)
     : gset Z) = {[8; 9; 12]}.
Proof. reflexivity. Qed.




(** ** Calls of [fetch_results] *)

Section Calls.

Variable env : environment.

(** The guard [if events_to_fetch:] only skips an empty loop. *)
Lemma fetch_results_loop from_event to_event last_events σ :
  fetch_results env from_event to_event last_events σ =
  _fetch_event_results env
    (events_to_fetch (self σ) from_event to_event last_events) σ.
Proof.
  unfold fetch_results. st_unfold.
  destruct (events_to_fetch _ _ _ _) as [|e l] eqn:Hp; [done|].
  by rewrite bool_decide_eq_true_2.
Qed.

Lemma requested_events_last s s' from_event to_event last_events :
  _last_event_no s = _last_event_no s' →
  requested_events s from_event to_event last_events
  = requested_events s' from_event to_event last_events.
Proof. unfold requested_events. by intros ->. Qed.

(** After a call that returned, the same request has nothing left. *)
Lemma plan_after_return from_event to_event last_events σ σ' :
  fetch_results env from_event to_event last_events σ = (inr (), σ') →
  events_to_fetch (self σ') from_event to_event last_events = [].
Proof.
  rewrite fetch_results_loop. intros Hrun.
  pose proof (loop_attrs env
    (events_to_fetch (self σ) from_event to_event last_events) σ) as [_ Hlast].
  destruct (loop_returns env _ _ _ Hrun) as [Hf _].
  rewrite Hrun in Hlast. simpl in Hlast.
  apply elem_of_nil_inv. intros x Hx.
  apply elem_of_events_to_fetch in Hx as (Hreq & Hnf & Hle).
  apply Hnf. rewrite Hf. apply elem_of_union_l, elem_of_list_to_set.
  apply elem_of_events_to_fetch. split_and!.
  - by rewrite <- (requested_events_last _ _ _ _ _ Hlast).
  - intros Hin. apply Hnf. rewrite Hf. by apply elem_of_union_r.
  - by rewrite <- Hlast.
Qed.

End Calls.

(** C4: when the plan is empty (for one, when the range asked for lies
    within the fetched set) [fetch_results] returns without a page fetch,
    the dataset and the fetched set as they were; and a call that repeats
    a request that already returned finds its plan empty: it fetches
    nothing and changes nothing. *)
Theorem C4_empty_plan_is_a_no_op env from_event to_event last_events σ :
  (events_to_fetch (self σ) from_event to_event last_events = [] →
   fetch_results env from_event to_event last_events σ = (inr (), σ)) ∧
  (∀ f t, f ≠ 0 → t ≠ 0 →
     (∀ x, f ≤ x ≤ t → x ∈ _fetched_events (self σ)) →
     fetch_results env (Some f) (Some t) last_events σ = (inr (), σ)) ∧
  (∀ σ', fetch_results env from_event to_event last_events σ = (inr (), σ') →
     fetch_results env from_event to_event last_events σ' = (inr (), σ')).
Proof.
  split_and!.
  - intros Hp. by rewrite fetch_results_loop, Hp.
  - intros f t Hf Ht Hin. rewrite fetch_results_loop.
    replace (events_to_fetch (self σ) (Some f) (Some t) last_events)
      with (@nil Z); [done|].
    symmetry. apply elem_of_nil_inv. intros x Hx.
    apply elem_of_events_to_fetch in Hx as (Hreq & Hnf & _).
    apply Hnf, Hin. apply elem_of_requested_events in Hreq. simpl in Hreq.
    by rewrite bool_decide_eq_true_2 in Hreq.
  - intros σ' Hrun. rewrite fetch_results_loop.
    by rewrite (plan_after_return env _ _ _ _ _ Hrun).
Qed.

Lemma C4_empty_plan_is_a_no_op_witness :
  fetch_results example_env (Some 10) (Some 11) 12 (example_state 12 {[10; 11]})
  = (inr (), example_state 12 {[10; 11]}) ∧
  fetch_results example_env None None 2 (example_state 12 {[11; 12]})
  = (inr (), example_state 12 {[11; 12]}) ∧
  ∃ σ', fetch_results example_env (Some 3) (Some 4) 12 (example_state 12 ∅)
        = (inr (), σ') ∧
        fetch_results example_env (Some 3) (Some 4) 12 σ' = (inr (), σ').
Proof.
  split_and!.
  - apply (proj1 (proj2 (C4_empty_plan_is_a_no_op example_env
             (Some 10) (Some 11) 12 (example_state 12 {[10; 11]}))));
      [lia|lia|].
    intros x Hx. simpl. assert (x = 10 ∨ x = 11) as [->| ->] by lia; set_solver.
  - apply (proj1 (C4_empty_plan_is_a_no_op example_env None None 2
             (example_state 12 {[11; 12]}))).
    reflexivity.
  - exists (fetch_results example_env (Some 3) (Some 4) 12
              (example_state 12 ∅)).2.
    split; [vm_compute; reflexivity|].
    apply (proj2 (proj2 (C4_empty_plan_is_a_no_op example_env
             (Some 3) (Some 4) 12 (example_state 12 ∅)))).
    vm_compute; reflexivity.
Defined.

(** ** The pairing of the fetched set and the dataset *)

Section Consistency.

Variable env : environment.

Lemma rows_of_event_same e df :
  rows_of_event e (set_event_no e df) = set_event_no e df.
Proof.
  unfold rows_of_event, set_event_no.
  induction df as [|row df IH]; [done|].
  rewrite fmap_cons, filter_cons_True, IH; [done|].
  apply lookup_insert_eq.
Qed.

Lemma rows_of_event_other e e' df :
  e ≠ e' → rows_of_event e' (set_event_no e df) = [].
Proof.
  intros Hne. unfold rows_of_event, set_event_no.
  induction df as [|row df IH]; [done|].
  rewrite fmap_cons, filter_cons_False, IH; [done|].
  rewrite lookup_insert_eq. congruence.
Qed.

Lemma rows_of_event_unfetched e (df : DataFrame) (fetched : gset Z) :
  (∀ row : record, row ∈ df →
     ∃ e', row !! "event_no" = Some (PyInt e') ∧ e' ∈ fetched) →
  e ∉ fetched → rows_of_event e df = [].
Proof.
  intros Hrows He. unfold rows_of_event.
  induction df as [|row df IH]; [done|].
  rewrite filter_cons_False.
  - apply IH. intros r Hr. apply Hrows. by right.
  - destruct (Hrows row) as (e' & Hrow & He'); [by left|].
    rewrite Hrow. intros [= ->]. done.
Qed.

(** Later effects do not disturb the pairing. *)
Lemma consistent_world σ more :
  consistent env σ →
  consistent env {| self := self σ; world := world σ ++ more |}.
Proof.
  intros [Hrows Hfetched]. split; [exact Hrows|]. simpl.
  intros e He. destruct (Hfetched e He) as (w & site & df & Hw & H).
  exists w, site, df. split; [|exact H]. by apply prefix_app_r.
Qed.

(** Merging the rows of an event that is not fetched yet keeps it. *)
Lemma consistent_merged e df σ :
  consistent env σ →
  e ∉ _fetched_events (self σ) →
  served env e σ = inr df →
  consistent env (merged e df σ).
Proof.
  intros [Hrows Hfetched] He Hs. unfold served in Hs.
  destruct (page_source env _ _) as [site|] eqn:Hsite; [|done].
  split; unfold merged, rows; simpl; fold (rows (self σ)).
  - intros row [Hold|Hnew]%elem_of_app.
    + destruct (Hrows row Hold) as (e' & Hrow & He'). exists e'.
      split; [done|]. by apply elem_of_union_r.
    + exists e. split; [|by apply elem_of_union_l, elem_of_singleton].
      apply list_elem_of_fmap in Hnew as (row' & -> & _).
      apply lookup_insert_eq.
  - intros e' [->%elem_of_singleton|He']%elem_of_union.
    + exists (world σ), site, df. split_and!; [|done|done|].
      * exists [Sleep 1]. by rewrite <- (assoc_L (++)).
      * unfold rows_of_event. rewrite filter_app.
        fold (rows_of_event e (rows (self σ))).
        fold (rows_of_event e (set_event_no e df)).
        rewrite (rows_of_event_unfetched _ _ _ Hrows He).
        by rewrite rows_of_event_same.
    + destruct (Hfetched e' He') as (w & site' & df' & Hw & Hp & Hx & Hr).
      exists w, site', df'. split_and!; [|done|done|].
      * by apply prefix_app_r.
      * unfold rows_of_event. rewrite filter_app.
        fold (rows_of_event e' (rows (self σ))).
        fold (rows_of_event e' (set_event_no e df)).
        rewrite Hr, rows_of_event_other, (right_id_L [] (++)); [done|].
        intros ->. done.
Qed.

(** The loop keeps it on events that are distinct and not fetched yet,
    whether it returns or raises. *)
Lemma consistent_loop events σ :
  NoDup events →
  (∀ x, x ∈ events → x ∉ _fetched_events (self σ)) →
  consistent env σ →
  consistent env (_fetch_event_results env events σ).2.
Proof.
  revert σ. induction events as [|e events IH]; intros σ Hnd Hnew Hc; [done|].
  apply NoDup_cons in Hnd as [He Hnd].
  destruct (served env e σ) as [ex|df] eqn:Hs.
  - rewrite (loop_cons_fail _ _ _ _ _ Hs). simpl.
    by apply (consistent_world σ).
  - rewrite (loop_cons_ok _ _ _ _ _ Hs). apply IH; [done| |].
    + intros x Hx. simpl.
      intros [->%elem_of_singleton|Hin]%elem_of_union; [done|].
      by apply (Hnew x); [right|].
    + apply consistent_merged; [done| |done]. apply Hnew. by left.
Qed.

Lemma consistent_fetch_results from_event to_event last_events σ :
  consistent env σ →
  consistent env (fetch_results env from_event to_event last_events σ).2.
Proof.
  intros Hc. rewrite fetch_results_loop. apply consistent_loop; [|  |done].
  - apply NoDup_events_to_fetch.
  - intros x Hx%elem_of_events_to_fetch. tauto.
Qed.

Lemma consistent_run_calls calls σ :
  consistent env σ → consistent env (run_calls env calls σ).
Proof.
  revert σ. induction calls as [|[[from_event to_event] last_events] calls IH];
    intros σ Hc; [done|].
  simpl. apply IH. by apply consistent_fetch_results.
Qed.

(** What a construction that returns has done. *)
Lemma init_returns park_id avoid_saturday w s w' :
  __init__ env park_id avoid_saturday w = (inr s, w') →
  avoid_saturday = true ∧ today env ≠ Saturday ∧
  w' = w ++ [ChromeStarted; BrowserGet (Homepage park_id)] ∧
  _park_id s = park_id ∧ _fetched_events s = ∅ ∧ _dataset s = None.
Proof.
  unfold __init__, _init_browser, _fetch_event_summary, _fetch_page,
    _extract_homepage_info, _is_today_saturday.
  st_unfold.
  destruct avoid_saturday; simpl; [|done].
  destruct (today env) eqn:Hday; simpl; try done;
    (destruct (chrome_starts env); simpl; [|done]);
    (destruct (page_source env _ _) as [site|]; simpl; [|done]);
    (destruct (homepage_info site) as [ex|[[name last] stats]]; simpl; [done|]);
    intros [= <- <-]; simpl;
    by rewrite <- (assoc_L (++)).
Qed.

Lemma consistent_init park_id avoid_saturday w s w' :
  __init__ env park_id avoid_saturday w = (inr s, w') →
  consistent env {| self := s; world := w' |}.
Proof.
  intros (_ & _ & _ & _ & Hf & Hd)%init_returns.
  split; simpl; unfold rows; rewrite ?Hf, ?Hd; simpl.
  - intros row Hrow. by apply elem_of_nil in Hrow.
  - intros e He. by apply not_elem_of_empty in He.
Qed.

End Consistency.

(** C3: in every state a session reaches, after calls that returned and
    calls that raised, the fetched set and the dataset are paired: a row
    of the dataset carries the number of a fetched event, so an event
    with a row in the dataset is in the fetched set; and the rows the
    dataset holds for a fetched event are exactly the rows extracted from
    a page that was fetched for it, all of them and stamped with its
    number. *)
Theorem C3_fetched_iff_merged env park_id avoid_saturday calls σ :
  session env park_id avoid_saturday calls = inr σ →
  consistent env σ ∧
  (∀ e, rows_of_event e (rows (self σ)) ≠ [] → e ∈ _fetched_events (self σ)).
Proof.
  unfold session.
  destruct (__init__ env park_id avoid_saturday []) as [[ex|s] w] eqn:Hinit;
    [done|].
  intros [= <-].
  assert (consistent env (run_calls env calls {| self := s; world := w |}))
    as Hc by (eapply consistent_run_calls, consistent_init; exact Hinit).
  split; [exact Hc|].
  intros e Hne. destruct (decide (e ∈ _fetched_events
    (self (run_calls env calls {| self := s; world := w |})))) as [|Hnot];
    [done|].
  destruct Hne. eapply rows_of_event_unfetched; [apply Hc|exact Hnot].
Qed.

Lemma C3_fetched_iff_merged_witness :
  let σ := run_calls example_env [(None, None, 3); (Some 1, Some 2, 12)]
             {| self := example_scraper 12 ∅;
                world := [ChromeStarted; BrowserGet (Homepage "rothaypark")] |} in
  consistent example_env σ ∧
  (∀ e, rows_of_event e (rows (self σ)) ≠ [] → e ∈ _fetched_events (self σ)).
Proof.
  apply (C3_fetched_iff_merged example_env "rothaypark" true
           [(None, None, 3); (Some 1, Some 2, 12)]).
  vm_compute; reflexivity.
Defined.

(** ** The effects of a call *)

Section Effects.

Variable env : environment.

Lemma delays_app w1 w2 : delays (w1 ++ w2) = (delays w1 + delays w2)%nat.
Proof. unfold delays. by rewrite filter_app, length_app. Qed.

Lemma page_fetches_app w1 w2 :
  page_fetches (w1 ++ w2) = (page_fetches w1 + page_fetches w2)%nat.
Proof. unfold page_fetches. by rewrite filter_app, length_app. Qed.

Lemma delays_paced park_id done : delays (paced park_id done) = length done.
Proof.
  induction done as [|e done IH]; [done|].
  unfold paced in *. rewrite bind_cons, delays_app, IH. done.
Qed.

Lemma page_fetches_paced park_id done :
  page_fetches (paced park_id done) = length done.
Proof.
  induction done as [|e done IH]; [done|].
  unfold paced in *. rewrite bind_cons, page_fetches_app, IH. done.
Qed.


(** The effects of a construction, whatever its outcome. *)
Lemma init_effects park_id avoid_saturday w :
  ∃ new, (__init__ env park_id avoid_saturday w).2 = w ++ new ∧
    delays new = 0%nat ∧
    match (__init__ env park_id avoid_saturday w).1 with
    | inr _ => page_fetches new = 1%nat
    | inl _ => (page_fetches new ≤ 1)%nat
    end.
Proof.
  unfold __init__, _init_browser, _fetch_event_summary, _fetch_page,
    _extract_homepage_info.
  st_unfold.
  destruct (negb avoid_saturday || _is_today_saturday env); simpl.
  { exists []. by rewrite (right_id_L [] (++)); auto. }
  destruct (chrome_starts env); simpl.
  2:{ exists []. by rewrite (right_id_L [] (++)); auto. }
  exists [ChromeStarted; BrowserGet (Homepage park_id)].
  rewrite <- (assoc_L (++)).
  destruct (page_source env _ _) as [site|]; simpl; [|auto].
  destruct (homepage_info site) as [ex|[[name last] stats]]; simpl; auto.
Qed.

End Effects.



(** C8 (as the code has it): the delay is [time.sleep(1)], taken once
    after each results page that was fetched, extracted and merged.  A
    construction takes no delay, though it fetches the summary page when it
    gets that far; and a call of [fetch_results] merges some events
    [done], a delay after each of them, and then either returns or raises
    on one more page fetch, which no delay follows. *)
Theorem C8_delay_after_each_merged_event env :
  (∀ park_id avoid_saturday w,
     ∃ new, (__init__ env park_id avoid_saturday w).2 = w ++ new ∧
       delays new = 0%nat ∧
       match (__init__ env park_id avoid_saturday w).1 with
       | inr _ => page_fetches new = 1%nat
       | inl _ => (page_fetches new ≤ 1)%nat
       end) ∧
  (∀ from_event to_event last_events σ,
     ∃ done tail,
       world (fetch_results env from_event to_event last_events σ).2
         = world σ ++ paced (_park_id (self σ)) done ++ tail ∧
       _fetched_events (self (fetch_results env from_event to_event last_events σ).2)
         = list_to_set done ∪ _fetched_events (self σ) ∧
       delays (paced (_park_id (self σ)) done ++ tail) = length done ∧
       page_fetches (paced (_park_id (self σ)) done ++ tail)
         = (length done + length tail)%nat ∧
       match (fetch_results env from_event to_event last_events σ).1 with
       | inr _ => tail = []
       | inl _ => ∃ e, tail = [BrowserGet (EventResults (_park_id (self σ)) e)]
       end).
Proof.
  split; [apply init_effects|].
  intros from_event to_event last_events σ. rewrite fetch_results_loop.
  destruct (loop_shape env
    (events_to_fetch (self σ) from_event to_event last_events) σ)
    as (done & rest & _ & Hf & Hw & _ & Hres).
  exists done,
    match rest with
    | [] => []
    | e :: _ => [BrowserGet (EventResults (_park_id (self σ)) e)]
    end.
  split_and!; [exact Hw|exact Hf| | |].
  - rewrite delays_app, delays_paced. destruct rest; unfold delays; simpl; lia.
  - rewrite page_fetches_app, page_fetches_paced.
    destruct rest; unfold page_fetches; simpl; lia.
  - destruct (_fetch_event_results env _ σ).1; destruct rest; try done.
    by eexists.
Qed.

(** C8 (the claim as stated fails): in the session that is constructed
    on a Monday and then fetches events 1 and 2, three pages are fetched,
    the summary page and two results pages, and two delays are taken. *)
Lemma C8_counterexample :
  page_fetches (session_log example_env "rothaypark" true [(Some 1, Some 2, 12)])
    = 3%nat ∧
  delays (session_log example_env "rothaypark" true [(Some 1, Some 2, 12)])
    = 2%nat.
Proof. split; vm_compute; reflexivity. Qed.



(** ** Results extraction *)




(** A row that is not named "Unknown" and has no name cell makes the
    extraction of its page raise: there is no frame with the other rows. *)
Lemma extract_rows_missing_cell before result after :
  get result "data-name" ≠ PyStr "Unknown" →
  find_td_name result = None →
  ∃ ex, extract_rows (before ++ result :: after) = inl ex.
Proof.
  intros Hname Htd. induction before as [|r before [ex IH]]; simpl.
  - exists AttributeError. unfold extract_row.
    replace ((<[ "position" := get result "data-position" ]>
                ({[ "name" := get result "data-name" ]} : record)) !! "name")
      with (Some (get result "data-name")) by reflexivity.
    rewrite decide_True by congruence. by rewrite Htd.
  - rewrite IH. destruct (extract_row r) as [ex'|row]; simpl; by eexists.
Qed.

(** [split] at "/" and [[-1]] give the part after the last "/". *)
Lemma split_last_segment pre seg :
  Forall (λ c, c ≠ "/"%char) (String.list_ascii_of_string seg) →
  last (split "/"%char (String.append pre (String "/"%char seg))) = Some seg.
Proof.
  intros Hseg.
  assert (split "/"%char seg = [seg]) as Hs.
  { induction seg as [|c seg IH]; [done|]. cbn [split].
    cbn [String.list_ascii_of_string] in Hseg.
    apply Forall_cons in Hseg as [Hc Hseg].
    destruct (decide (c = "/"%char)); [done|]. by rewrite IH. }
  assert (∃ h t, split "/"%char (String.append pre (String "/"%char seg))
                 = h :: t ∧ last t = Some seg) as (h & t & -> & Hlast).
  { induction pre as [|c pre (h & t & IH & Hlast)].
    - exists EmptyString, [seg]. split; [|done].
      change (split "/"%char (String "/"%char seg)
              = EmptyString :: [seg]).
      cbn [split]. destruct (decide ("/"%char = "/"%char)); [|done].
      by rewrite Hs.
    - change (∃ h t, split "/"%char
                (String c (String.append pre (String "/"%char seg)))
                = h :: t ∧ last t = Some seg).
      cbn [split]. rewrite IH. destruct (decide (c = "/"%char)).
      + exists EmptyString, (h :: t). split; [done|].
        destruct t; [done|]. done.
      + by exists (String c h), t. }
  destruct t; [done|]. done.
Qed.

Lemma split_nonempty sep s : ∃ h t, split sep s = h :: t.
Proof.
  destruct s as [|c s]; cbn [split]; [by eexists _, _|].
  destruct (decide (c = sep)); [by eexists _, _|].
  destruct (split sep s); by eexists _, _.
Qed.

(** The extraction of a row returns exactly when the row is complete. *)
Lemma extract_row_returns result :
  (∃ row, extract_row result = inr row) ↔ complete_row result.
Proof.
  unfold extract_row, complete_row.
  replace ((<[ "position" := get result "data-position" ]>
              ({[ "name" := get result "data-name" ]} : record)) !! "name")
    with (Some (get result "data-name")) by reflexivity.
  destruct (decide (Some (get result "data-name") ≠ Some (PyStr "Unknown")))
    as [Hname|Hname].
  - split.
    + intros [row Hrow]. right.
      destruct (find_td_name result) as [td|]; [|done]. simpl in Hrow.
      destruct (name_find_a td) as [a|] eqn:Ha; [|done]. simpl in Hrow.
      destruct (a_href a) as [href|] eqn:Hhref; [|done]. simpl in Hrow.
      destruct (index_last (split "/"%char href)) as [ex|pid]; [done|].
      simpl in Hrow.
      destruct (find_td_time result) as [td'|]; [|done]. simpl in Hrow.
      destruct (time_find_div td') as [time|] eqn:Htime; [|done].
      by exists td, a, href, td', time.
    + intros [Hunk|(td & a & href & td' & time & -> & Ha & Hhref & -> & Htime)];
        [congruence|].
      simpl. rewrite Ha. simpl. rewrite Hhref. simpl.
      destruct (split_nonempty "/"%char href) as (h & t & ->).
      unfold index_last. destruct (last (h :: t)) as [pid|] eqn:Hlast.
      * simpl. rewrite Htime. simpl. by eexists.
      * by apply last_None in Hlast.
  - split; [|by eexists].
    intros _. left. apply dec_stable in Hname. congruence.
Qed.

Lemma extract_rows_returns results :
  (∃ df, extract_rows results = inr df) ↔ Forall complete_row results.
Proof.
  induction results as [|result results IH]; simpl.
  - split; [constructor|by eexists].
  - rewrite Forall_cons, <- IH, <- extract_row_returns. split.
    + intros [df Hdf].
      destruct (extract_row result) as [ex|row]; [done|]. simpl in Hdf.
      destruct (extract_rows results) as [ex|df']; [done|].
      split; by eexists.
    + intros [[row ->] [df ->]]. by eexists.
Qed.






(** ** Further properties: construction *)

(** Construction raises the parkrun-day exception without having done
    anything exactly when the flag is off or today is Saturday. *)
Lemma init_refused_cases env park_id avoid_saturday w :
  __init__ env park_id avoid_saturday w = (inl ParkrunDayException, w) ↔
  avoid_saturday = false ∨ today env = Saturday.
Proof.
  split.
  - unfold __init__, _init_browser, _fetch_event_summary, _fetch_page,
      _extract_homepage_info, _is_today_saturday.
    st_unfold.
    destruct avoid_saturday; simpl; [|by left].
    destruct (today env) eqn:Hday; simpl; try (by right);
      (destruct (chrome_starts env); simpl; [|done]);
      (destruct (page_source env _ _) as [site|]; simpl;
         [destruct (homepage_info site) as [ex|[[name last] stats]]; simpl|]);
      intros H; apply (f_equal snd) in H; simpl in H;
      apply (f_equal length) in H; rewrite !length_app in H; simpl in H; lia.
  - intros [->|Hday]; [done|].
    unfold __init__, _init_browser, _is_today_saturday. st_unfold.
    rewrite Hday. simpl. by rewrite orb_true_r.
Qed.

(** X1: with the guard on, the default, construction raises the
    parkrun-day exception without having done anything (no browser
    started, no page fetched) exactly when today is Saturday. *)
Theorem init_refused_on_saturday env park_id w :
  __init__ env park_id true w = (inl ParkrunDayException, w) ↔
  today env = Saturday.
Proof. rewrite init_refused_cases. naive_solver. Qed.

(** X2: construction returns exactly when the flag is on, today is not
    Saturday, the browser starts, the landing page of the event is served
    and its reading succeeds; the object then holds the name, the number
    of events and the statistics read from that page, an empty fetched set
    and no dataset, and the browser was started and fetched the landing
    page, nothing else. *)
Theorem init_returns_iff env park_id avoid_saturday w s w' :
  __init__ env park_id avoid_saturday w = (inr s, w') ↔
  avoid_saturday = true ∧ today env ≠ Saturday ∧ chrome_starts env = true ∧
  ∃ site event_name last_event_no event_stats,
    page_source env (w ++ [ChromeStarted]) (Homepage park_id) = Some site ∧
    homepage_info site = inr (event_name, last_event_no, event_stats) ∧
    s = {| _avoid_saturday := true; _park_id := park_id;
           _event_name := event_name; _last_event_no := last_event_no;
           _event_stats := event_stats;
           _fetched_events := ∅; _dataset := None |} ∧
    w' = w ++ [ChromeStarted; BrowserGet (Homepage park_id)].
Proof.
  unfold __init__, _init_browser, _fetch_event_summary, _fetch_page,
    _extract_homepage_info, _is_today_saturday.
  st_unfold.
  destruct avoid_saturday; simpl; [|naive_solver].
  assert (bool_decide (weekday (today env) = 5) = false ∨ today env = Saturday)
    as [Hday| Hday] by (destruct (today env); simpl; auto).
  2:{ rewrite Hday. simpl. naive_solver. }
  rewrite Hday.
  assert (today env ≠ Saturday) as Hnot
    by (intros Heq; rewrite Heq in Hday; done).
  destruct (chrome_starts env); simpl; [|naive_solver].
  destruct (page_source env _ _) as [site|]; simpl; [|naive_solver].
  destruct (homepage_info site) as [ex|[[name last] stats]] eqn:Hinfo; simpl.
  - split; [done|]. intros (_ & _ & _ & site' & n' & l' & s' & [= <-] & H & _).
    congruence.
  - rewrite <- (assoc_L (++)). simpl. split.
    + intros [= <- <-]. split_and!; try done. by exists site, name, last, stats.
    + intros (_ & _ & _ & site' & n' & l' & s' & [= <-] & H & -> & ->).
      rewrite Hinfo in H. by injection H as -> -> ->.
Qed.

(** ** Further properties: calls *)

Section MoreCalls.

Variable env : environment.

Lemma same_summary_refl s : same_summary s s.
Proof. by unfold same_summary. Qed.

Lemma same_summary_trans s1 s2 s3 :
  same_summary s1 s2 → same_summary s2 s3 → same_summary s1 s3.
Proof. unfold same_summary. intros (?&?&?&?&?) (?&?&?&?&?). split_and!; congruence. Qed.

Lemma loop_same_summary events σ :
  same_summary (self σ) (self (_fetch_event_results env events σ).2).
Proof.
  revert σ. induction events as [|e events IH]; intros σ.
  - apply same_summary_refl.
  - destruct (served env e σ) as [ex|df] eqn:Hs.
    + rewrite (loop_cons_fail _ _ _ _ _ Hs). apply same_summary_refl.
    + rewrite (loop_cons_ok _ _ _ _ _ Hs).
      eapply same_summary_trans; [|apply IH]. by unfold same_summary.
Qed.

(** What one call leaves as it was and what it can only extend. *)
Lemma fetch_results_frame from_event to_event last_events σ :
  same_summary (self σ)
    (self (fetch_results env from_event to_event last_events σ).2) ∧
  _fetched_events (self σ)
    ⊆ _fetched_events (self (fetch_results env from_event to_event last_events σ).2) ∧
  rows (self σ)
    `prefix_of` rows (self (fetch_results env from_event to_event last_events σ).2) ∧
  world σ `prefix_of` world (fetch_results env from_event to_event last_events σ).2.
Proof.
  rewrite fetch_results_loop.
  destruct (loop_shape env
    (events_to_fetch (self σ) from_event to_event last_events) σ)
    as (done & rest & _ & Hf & Hw & Hr & _).
  split_and!.
  - apply loop_same_summary.
  - rewrite Hf. apply union_subseteq_r.
  - done.
  - rewrite Hw. by apply prefix_app_r.
Qed.

End MoreCalls.

(** X3: over any sequence of calls, those that raise included, what
    construction stored about the event (flag, id, name, number of events,
    statistics) never changes, the fetched set never loses a number, and
    the dataset and the log of effects only grow at their end. *)
Theorem run_calls_frame env calls σ :
  same_summary (self σ) (self (run_calls env calls σ)) ∧
  _fetched_events (self σ) ⊆ _fetched_events (self (run_calls env calls σ)) ∧
  rows (self σ) `prefix_of` rows (self (run_calls env calls σ)) ∧
  world σ `prefix_of` world (run_calls env calls σ).
Proof.
  revert σ.
  induction calls as [|[[from_event to_event] last_events] calls IH]; intros σ.
  - split_and!; [apply same_summary_refl|done|done|done].
  - simpl.
    destruct (fetch_results_frame env from_event to_event last_events σ)
      as (Hs & Hf & Hr & Hw).
    destruct (IH (fetch_results env from_event to_event last_events σ).2)
      as (Hs' & Hf' & Hr' & Hw').
    split_and!.
    + by eapply same_summary_trans.
    + by etrans.
    + by etrans.
    + by etrans.
Qed.

Lemma gets_app w1 w2 : gets (w1 ++ w2) = gets w1 ++ gets w2.
Proof. apply omap_app. Qed.

Lemma gets_paced park_id done :
  gets (paced park_id done) = EventResults park_id <$> done.
Proof.
  induction done as [|e done IH]; [done|].
  unfold paced in *. rewrite bind_cons, gets_app, IH. done.
Qed.

Lemma page_fetches_gets w : page_fetches w = length (gets w).
Proof.
  unfold page_fetches, gets. induction w as [|[| |] w IH]; simpl; auto.
Qed.

#[local] Instance EventResults_inj park_id : Inj (=) (=) (EventResults park_id).
Proof. by intros x y [= ->]. Qed.

(** X4: the pages a call fetches, whether it returns or raises, are
    results pages of the event, each of a number that was requested, was
    not in the fetched set and is not above [last_event_no], and no page
    is fetched twice: a call never fetches the landing page again, nor a
    number already fetched, nor one beyond the last event. *)
Theorem fetch_results_pages env from_event to_event last_events σ :
  ∃ new,
    world (fetch_results env from_event to_event last_events σ).2
      = world σ ++ new ∧
    NoDup (gets new) ∧
    ∀ u, u ∈ gets new →
      ∃ x, u = EventResults (_park_id (self σ)) x ∧
           x ∈ requested_events (self σ) from_event to_event last_events ∧
           (x ∉ _fetched_events (self σ)) ∧ x ≤ _last_event_no (self σ).
Proof.
  rewrite fetch_results_loop.
  pose proof (NoDup_events_to_fetch (self σ) from_event to_event last_events)
    as Hnd.
  destruct (loop_shape env
    (events_to_fetch (self σ) from_event to_event last_events) σ)
    as (done & rest & Hplan & _ & Hw & _ & _).
  eexists. split; [exact Hw|].
  assert (gets (paced (_park_id (self σ)) done ++
             match rest with
             | [] => []
             | e :: _ => [BrowserGet (EventResults (_park_id (self σ)) e)]
             end)
          = EventResults (_park_id (self σ)) <$> (done ++ take 1 rest)) as ->.
  { rewrite gets_app, gets_paced, fmap_app. by destruct rest. }
  assert (∀ x, x ∈ done ++ take 1 rest →
            x ∈ events_to_fetch (self σ) from_event to_event last_events)
    as Hsub.
  { intros x Hx. rewrite Hplan. apply elem_of_app.
    apply elem_of_app in Hx as [Hx|Hx]; [by left|right].
    destruct rest; [done|]. apply list_elem_of_singleton in Hx as ->. by left. }
  split.
  - apply (NoDup_fmap_2 _). rewrite Hplan in Hnd.
    apply NoDup_app in Hnd as (Hd & Hsep & Hr). apply NoDup_app. split_and!.
    + done.
    + intros x Hx Hin. apply (Hsep x Hx).
      destruct rest; [done|]. apply list_elem_of_singleton in Hin as ->. by left.
    + destruct rest; [constructor|apply NoDup_singleton].
  - intros u (x & -> & Hx%Hsub%elem_of_events_to_fetch)%list_elem_of_fmap.
    by exists x.
Qed.



(** X6: a call fetches at most as many pages as its request has
    candidates: at most [last_events] pages for the last events (none when
    that is 0 or negative), at most [to_event - from_event + 1] for a
    range (none when the range is empty). *)
Theorem fetch_results_page_bound env from_event to_event last_events σ :
  ∃ new,
    world (fetch_results env from_event to_event last_events σ).2
      = world σ ++ new ∧
    Z.of_nat (page_fetches new) ≤
      match request_of from_event to_event last_events with
      | RangeRequest f t => Z.max 0 (t - f + 1)
      | LastRequest N => Z.max 0 N
      end.
Proof.
  destruct (fetch_results_pages env from_event to_event last_events σ)
    as (new & Hw & Hnd & Hin).
  exists new. split; [done|]. rewrite page_fetches_gets.
  assert (gets new ⊆+ EventResults (_park_id (self σ)) <$>
            requested_events (self σ) from_event to_event last_events) as Hsub.
  { apply NoDup_submseteq; [done|]. intros u (x & -> & Hx & _)%Hin.
    by apply list_elem_of_fmap_2. }
  apply submseteq_length in Hsub. rewrite length_fmap in Hsub.
  assert (Z.of_nat (length
            (requested_events (self σ) from_event to_event last_events)) =
          match request_of from_event to_event last_events with
          | RangeRequest f t => Z.max 0 (t - f + 1)
          | LastRequest N => Z.max 0 N
          end) as <-; [|lia].
  unfold requested_events, request_of, arange, range.
  destruct from_event as [f|], to_event as [t|]; simpl;
    rewrite ?andb_false_r, ?length_fmap, ?length_seqZ; try lia.
  destruct (decide (f ≠ 0)) as [Hf|Hf], (decide (t ≠ 0)) as [Ht|Ht];
    rewrite ?(bool_decide_eq_true_2 _ Hf), ?(bool_decide_eq_false_2 _ Hf),
      ?(bool_decide_eq_true_2 _ Ht), ?(bool_decide_eq_false_2 _ Ht); simpl;
    [rewrite bool_decide_eq_true_2 by done
    |rewrite bool_decide_eq_false_2 by tauto..];
    rewrite ?length_fmap, ?length_seqZ; lia.
Qed.

(** X7: a request without candidates is no error: for the last
    [last_events] events with [last_events] 0 or negative, and for a
    range whose [to_event] is below its [from_event], the call returns
    and nothing has changed. *)
Theorem fetch_results_empty_request env from_event to_event last_events σ :
  match request_of from_event to_event last_events with
  | RangeRequest f t => t < f
  | LastRequest N => N ≤ 0
  end →
  fetch_results env from_event to_event last_events σ = (inr (), σ).
Proof.
  intros Hreq. rewrite fetch_results_loop.
  replace (events_to_fetch (self σ) from_event to_event last_events)
    with (@nil Z); [done|].
  symmetry. apply elem_of_nil_inv. intros x Hx.
  apply elem_of_events_to_fetch in Hx as (Hc & _ & _).
  apply elem_of_requested_events in Hc.
  destruct (request_of from_event to_event last_events); simpl in Hc.
  - lia.
  - destruct Hc as (i & Hi & _). lia.
Qed.

Lemma fetch_results_empty_request_witness :
  fetch_results example_env None None 0 (example_state 12 ∅)
    = (inr (), example_state 12 ∅) ∧
  fetch_results example_env (Some 5) (Some 3) 12 (example_state 12 ∅)
    = (inr (), example_state 12 ∅).
Proof.
  split.
  - apply (fetch_results_empty_request example_env None None 0). simpl. lia.
  - apply (fetch_results_empty_request example_env (Some 5) (Some 3) 12).
    simpl. lia.
Defined.

(** ** Further properties: failures of a call *)

Lemma extract_row_raises result ex :
  extract_row result = inl ex → ex = AttributeError.
Proof.
  unfold extract_row.
  destruct (decide _); [|done].
  destruct (find_td_name result) as [td|]; [|by intros [= <-]]. simpl.
  destruct (name_find_a td) as [a|]; [|by intros [= <-]]. simpl.
  destruct (a_href a) as [href|]; [|by intros [= <-]]. simpl.
  destruct (split_nonempty "/"%char href) as (h & t & ->).
  unfold index_last. destruct (last (h :: t)) as [pid|] eqn:Hlast.
  2:{ by apply last_None in Hlast. }
  simpl.
  destruct (find_td_time result) as [td'|]; [|by intros [= <-]]. simpl.
  destruct (time_find_div td') as [time|]; [|by intros [= <-]]. done.
Qed.

Lemma extract_rows_raises results ex :
  extract_rows results = inl ex → ex = AttributeError.
Proof.
  induction results as [|result results IH]; simpl; [done|].
  destruct (extract_row result) as [ex'|row] eqn:Hrow; simpl.
  - intros [= <-]. by eapply extract_row_raises.
  - destruct (extract_rows results) as [ex'|df]; simpl; [|done].
    intros [= <-]. by apply IH.
Qed.

Section Failures.

Variable env : environment.

(** A loop that raises went through some events and stopped at the
    next. *)
Lemma loop_raises events σ ex σ' :
  _fetch_event_results env events σ = (inl ex, σ') →
  ∃ pre e post σ1,
    events = pre ++ e :: post ∧
    _fetch_event_results env pre σ = (inr (), σ1) ∧
    served env e σ1 = inl ex ∧
    σ' = {| self := self σ1;
            world := world σ1
              ++ [BrowserGet (EventResults (_park_id (self σ1)) e)] |}.
Proof.
  revert σ. induction events as [|e events IH]; intros σ; [done|].
  destruct (served env e σ) as [ex'|df] eqn:Hs.
  - rewrite (loop_cons_fail _ _ _ _ _ Hs). intros [= <- <-].
    by exists [], e, events, σ.
  - rewrite (loop_cons_ok _ _ _ _ _ Hs).
    intros (pre & e' & post & σ1 & -> & Hpre & Hs' & ->)%IH.
    exists (e :: pre), e', post, σ1. split_and!; [done| |done|done].
    by rewrite (loop_cons_ok _ _ _ _ _ Hs).
Qed.

End Failures.

(** X8: a call of [fetch_results] that raises stopped on the page fetch
    of one planned event, its last effect, and that event is not marked
    fetched; either the navigation to that page failed, and the exception
    is the driver's, or the page was served with a row that cannot be
    read, and the exception is [AttributeError].  A call raises nothing
    else; the parkrun-day exception in particular is raised by
    construction only. *)
Theorem fetch_results_raises env from_event to_event last_events σ ex σ' :
  fetch_results env from_event to_event last_events σ = (inl ex, σ') →
  ∃ w e,
    world σ' = w ++ [BrowserGet (EventResults (_park_id (self σ)) e)] ∧
    world σ `prefix_of` w ∧
    e ∈ events_to_fetch (self σ) from_event to_event last_events ∧
    (e ∉ _fetched_events (self σ')) ∧
    ((page_source env w (EventResults (_park_id (self σ)) e) = None ∧
      ex = WebDriverException) ∨
     (∃ site,
        page_source env w (EventResults (_park_id (self σ)) e) = Some site ∧
        ¬ Forall complete_row (results_table_rows site) ∧
        ex = AttributeError)).
Proof.
  rewrite fetch_results_loop.
  intros (pre & e & post & σ1 & Hplan & Hpre & Hs & ->)%loop_raises.
  pose proof (NoDup_events_to_fetch (self σ) from_event to_event last_events)
    as Hnd.
  rewrite Hplan in Hnd. apply NoDup_app in Hnd as (_ & Hsep & _).
  destruct (loop_returns env _ _ _ Hpre) as [Hf Hw].
  pose proof (loop_attrs env pre σ) as [Hpid _].
  rewrite Hpre in Hpid. simpl in Hpid.
  exists (world σ1), e. simpl. rewrite Hpid. split_and!.
  - done.
  - rewrite Hw. by apply prefix_app_r.
  - rewrite Hplan. apply elem_of_app. right. by left.
  - rewrite Hf. intros [Hin%elem_of_list_to_set|Hin]%elem_of_union.
    + apply (Hsep e Hin). by left.
    + assert (e ∈ events_to_fetch (self σ) from_event to_event last_events)
        as He by (rewrite Hplan; apply elem_of_app; right; by left).
      apply elem_of_events_to_fetch in He. tauto.
  - unfold served in Hs. rewrite Hpid in Hs.
    destruct (page_source env _ _) as [site|]; [right|left].
    + exists site. split; [done|].
      pose proof (extract_rows_raises _ _ Hs) as ->. split; [|done].
      intros [df Hdf]%extract_rows_returns.
      unfold _extract_results in Hs. congruence.
    + by injection Hs as <-.
Qed.

Lemma fetch_results_raises_witness :
  ∃ w e,
    world (fetch_results example_env None None 5
             (example_state 12 {[10; 11]})).2
      = w ++ [BrowserGet
                (EventResults (_park_id (self (example_state 12 {[10; 11]}))) e)] ∧
    world (example_state 12 {[10; 11]}) `prefix_of` w ∧
    e ∈ events_to_fetch (self (example_state 12 {[10; 11]})) None None 5 ∧
    (e ∉ _fetched_events
           (self (fetch_results example_env None None 5
                    (example_state 12 {[10; 11]})).2)) ∧
    ((page_source example_env w
        (EventResults (_park_id (self (example_state 12 {[10; 11]}))) e) = None ∧
      WebDriverException = WebDriverException) ∨
     (∃ site,
        page_source example_env w
          (EventResults (_park_id (self (example_state 12 {[10; 11]}))) e)
          = Some site ∧
        ¬ Forall complete_row (results_table_rows site) ∧
        WebDriverException = AttributeError)).
Proof.
  refine (fetch_results_raises example_env None None 5
            (example_state 12 {[10; 11]}) WebDriverException
            (fetch_results example_env None None 5
               (example_state 12 {[10; 11]})).2 _).
  vm_compute; reflexivity.
Defined.

(** X9: a call consults the site only: on two environments that serve
    the same pages it does the same, whatever the day and whether a new
    browser would start.  The Saturday guard is checked by construction
    alone; an object constructed on another day fetches on a Saturday as
    on any day. *)
Theorem fetch_results_ignores_the_day env env'
    from_event to_event last_events σ :
  (∀ w u, page_source env w u = page_source env' w u) →
  fetch_results env from_event to_event last_events σ
  = fetch_results env' from_event to_event last_events σ.
Proof.
  intros Hsite. rewrite !fetch_results_loop.
  generalize (events_to_fetch (self σ) from_event to_event last_events).
  intros events. revert σ. induction events as [|e events IH]; intros σ.
  - done.
  - assert (served env e σ = served env' e σ) as Hserved
      by (unfold served; by rewrite Hsite).
    destruct (served env e σ) as [ex|df] eqn:Hs; symmetry in Hserved.
    + by rewrite (loop_cons_fail _ _ _ _ _ Hs),
        (loop_cons_fail _ _ _ _ _ Hserved).
    + rewrite (loop_cons_ok _ _ _ _ _ Hs), (loop_cons_ok _ _ _ _ _ Hserved).
      apply IH.
Qed.

Lemma fetch_results_ignores_the_day_witness :
  fetch_results example_env (Some 3) (Some 4) 12 (example_state 12 ∅)
  = fetch_results saturday_env (Some 3) (Some 4) 12 (example_state 12 ∅).
Proof.
  apply (fetch_results_ignores_the_day example_env saturday_env).
  intros w u. reflexivity.
Defined.

(** ** Further properties: the dataset on a static site *)

Section StaticSite.

Variable env : environment.
Hypothesis env_static : static env.



End StaticSite.



(** X11: on such a site, in every state a session reaches, the rows the
    dataset holds for a fetched event are the stamped frame of that
    event's page.  So an event whose page has no results row is marked
    fetched with no row in the dataset, and, being fetched, is not
    fetched again. *)
Theorem session_rows_of_fetched env park_id avoid_saturday calls σ e :
  static env →
  session env park_id avoid_saturday calls = inr σ →
  e ∈ _fetched_events (self σ) →
  rows_of_event e (rows (self σ)) = frame_of env (_park_id (self σ)) e.
Proof.
  intros Hstatic Hsession He. unfold session in Hsession.
  destruct (__init__ env park_id avoid_saturday []) as [[ex|s] w] eqn:Hinit;
    [done|].
  injection Hsession as <-.
  assert (consistent env (run_calls env calls {| self := s; world := w |}))
    as [_ Hc] by (eapply consistent_run_calls, consistent_init; exact Hinit).
  destruct (Hc e He) as (w0 & site & df & _ & Hsite & Hdf & ->).
  unfold frame_of. rewrite (Hstatic [] w0), Hsite. by rewrite Hdf.
Qed.

Lemma session_rows_of_fetched_witness :
  let σ := run_calls lenient_env [(None, None, 14)]
             {| self := example_scraper 12 ∅;
                world := [ChromeStarted; BrowserGet (Homepage "rothaypark")] |} in
  rows_of_event 0 (rows (self σ)) = frame_of lenient_env (_park_id (self σ)) 0.
Proof.
  refine (session_rows_of_fetched lenient_env "rothaypark" true
            [(None, None, 14)]
            (run_calls lenient_env [(None, None, 14)]
               {| self := example_scraper 12 ∅;
                  world := [ChromeStarted;
                            BrowserGet (Homepage "rothaypark")] |})
            0 _ _ _).
  - intros w w' u. reflexivity.
  - vm_compute; reflexivity.
  - apply (bool_decide_unpack _). vm_compute. exact I.
Defined.

(** ** Further properties: the identifier read from the profile link *)

Lemma append_assoc (s1 s2 s3 : string) :
  String.append (String.append s1 s2) s3
  = String.append s1 (String.append s2 s3).
Proof.
  induction s1 as [|c s1 IH]; [done|].
  change (String c (String.append (String.append s1 s2) s3)
          = String c (String.append s1 (String.append s2 s3))).
  by rewrite IH.
Qed.

(** The pieces of a split have no separator in them, and joined with the
    separator they give the string back. *)
Lemma split_join sep s :
  Forall (free_of sep) (split sep s) ∧ join sep (split sep s) = s.
Proof.
  induction s as [|c s [IHfree IHjoin]]; cbn [split].
  - split; [|done]. repeat constructor.
  - destruct (split_nonempty sep s) as (h & t & Hs). rewrite Hs in *.
    apply Forall_cons in IHfree as [Hh Ht].
    destruct (decide (c = sep)) as [->|Hc].
    + split; [repeat constructor; done|].
      change (String sep (join sep (h :: t)) = String sep s).
      by rewrite IHjoin.
    + split.
      * constructor; [|done]. by constructor.
      * destruct t as [|x t].
        -- change (String c (join sep [h]) = String c s). by rewrite IHjoin.
        -- change (String c (join sep (h :: x :: t)) = String c s).
           by rewrite IHjoin.
Qed.

Lemma join_last sep l id :
  last l = Some id →
  join sep l = id ∨ ∃ pre, join sep l = String.append pre (String sep id).
Proof.
  induction l as [|s l IH]; [done|].
  destruct l as [|s' l].
  - intros [= ->]. by left.
  - intros Hlast. right.
    change (∃ pre, String.append s (String sep (join sep (s' :: l)))
                   = String.append pre (String sep id)).
    destruct (IH Hlast) as [->|[pre ->]].
    + by exists s.
    + exists (String.append s (String sep pre)).
      by rewrite append_assoc.
Qed.

(** X12: reading [parkrun_id] off a link target never raises: splitting
    at "/" and taking the last piece gives the part of the target after
    its last "/" (the whole target when it has none), a text without
    "/". *)
Theorem parkrun_id_is_last_segment href :
  ∃ parkrun_id,
    index_last (split "/"%char href) = inr parkrun_id ∧
    free_of "/"%char parkrun_id ∧
    (href = parkrun_id ∨
     ∃ pre, href = String.append pre (String "/"%char parkrun_id)).
Proof.
  destruct (split_join "/"%char href) as [Hfree Hjoin].
  destruct (split_nonempty "/"%char href) as (h & t & Hs).
  unfold index_last. rewrite Hs in *.
  destruct (last (h :: t)) as [id|] eqn:Hlast.
  2:{ by apply last_None in Hlast. }
  exists id. split_and!; [done| |].
  - rewrite Forall_forall in Hfree. apply Hfree.
    by apply last_Some_elem_of.
  - rewrite <- Hjoin. by apply join_last.
Qed.

(** ** Further properties: reading the landing page *)

Section HomepageFacts.

Import Homepage.

Variable strip : string → string.
Variable int : string → option Z.

Lemma dict_update_pairs m items :
  pairs items → dict_update m items = inr (updates m items).
Proof.
  revert m. induction items as [|item items IH]; intros m Hp; [done|].
  apply Forall_cons in Hp as [Hlen Hp].
  destruct item as [|k [|v [|? ?]]]; try done. simpl. by apply IH.
Qed.

Lemma dict_update_not_pairs m items :
  ¬ pairs items → dict_update m items = inl ValueError.
Proof.
  revert m. induction items as [|item items IH]; intros m Hp.
  - destruct Hp. constructor.
  - destruct item as [|k [|v [|? ?]]]; try done. simpl. apply IH.
    intros Hp'. apply Hp. by constructor.
Qed.

Lemma merge_records_items m (event_records : list (list string)) :
  merge_records strip m event_records
  = dict_update m
      ((λ record,
          match record with
          | [record_type; record_details] =>
              [remove ":"%char record_type;
               remove newline (strip record_details)]
          | _ => record
          end) <$> event_records).
Proof.
  revert m. induction event_records as [|record records IH]; intros m; [done|].
  destruct record as [|t [|d [|? ?]]]; try done. simpl. apply IH.
Qed.

Lemma pairs_record_items soup :
  pairs (record_items strip soup) ↔ pairs (find_all_records soup).
Proof.
  unfold pairs, record_items. rewrite Forall_fmap. apply Forall_proper; [|done].
  intros record. by destruct record as [|t [|d [|? ?]]].
Qed.

Lemma lookup_last_snoc k items item :
  lookup_last k (items ++ [item])
  = match item_value k item with
    | Some v => Some v
    | None => lookup_last k items
    end.
Proof.
  unfold lookup_last. rewrite omap_app. simpl.
  destruct (item_value k item) as [v|]; simpl.
  - by rewrite last_snoc.
  - by rewrite (right_id_L [] (++)).
Qed.

Lemma lookup_last_app k items items' :
  lookup_last k (items ++ items')
  = match lookup_last k items' with
    | Some v => Some v
    | None => lookup_last k items
    end.
Proof.
  induction items' as [|item items' IH] using rev_ind.
  - by rewrite (right_id_L [] (++)).
  - rewrite (assoc_L (++)), !lookup_last_snoc, IH.
    by destruct (item_value k item).
Qed.

(** A later item overwrites an earlier one with the same key. *)
Lemma lookup_updates m items k :
  updates m items !! k
  = match lookup_last k items with
    | Some v => Some v
    | None => m !! k
    end.
Proof.
  induction items as [|item items IH] using rev_ind; [done|].
  unfold updates. rewrite foldl_app. fold (updates m items). simpl.
  rewrite lookup_last_snoc.
  destruct item as [|k' [|v [|? ?]]]; try done. simpl.
  destruct (decide (k' = k)) as [->|Hne].
  - by rewrite lookup_insert_eq.
  - by rewrite lookup_insert_ne.
Qed.

(** The reading, case by case. *)
Lemma extract_homepage_info_cases soup :
  _extract_homepage_info strip int soup =
  match find_h1 soup with
  | None => inl AttributeError
  | Some h1 =>
      if decide (pairs (footer_items strip soup)) then
        match lookup_last "Events" (footer_items strip soup) with
        | None => inl (KeyError "Events")
        | Some v =>
            if decide (pairs (find_all_records soup)) then
              match int v with
              | None => inl ValueError
              | Some n =>
                  inr (strip h1, n,
                       updates ∅ (footer_items strip soup
                                    ++ record_items strip soup))
              end
            else inl ValueError
        end
      else inl ValueError
  end.
Proof.
  unfold _extract_homepage_info.
  destruct (find_h1 soup) as [h1|]; [|done]. simpl.
  fold (footer_items strip soup). unfold dict.
  destruct (decide (pairs (footer_items strip soup))) as [Hp|Hp].
  2:{ by rewrite (dict_update_not_pairs _ _ Hp). }
  rewrite (dict_update_pairs _ _ Hp). simpl.
  rewrite lookup_updates, lookup_empty.
  destruct (lookup_last "Events" (footer_items strip soup)) as [v|]; [|done].
  simpl. rewrite merge_records_items. fold (record_items strip soup).
  destruct (decide (pairs (find_all_records soup))) as [Hr|Hr].
  - rewrite dict_update_pairs by by apply pairs_record_items. simpl.
    destruct (int v); [|done]. simpl.
    unfold updates. by rewrite foldl_app.
  - rewrite dict_update_not_pairs by by rewrite pairs_record_items.
    done.
Qed.

End HomepageFacts.

(** X13: the reading of the landing page returns exactly when the page
    has the heading, every footer statistic splits at ": " into two
    pieces, a statistic is labelled "Events" and the value of the last
    such statistic is a number for [int], and every record block has two
    [span]s. *)
Theorem homepage_returns_iff strip int soup :
  (∃ r, Homepage._extract_homepage_info strip int soup = inr r) ↔
  is_Some (Homepage.find_h1 soup) ∧
  Homepage.pairs (Homepage.footer_items strip soup) ∧
  Homepage.pairs (Homepage.find_all_records soup) ∧
  ∃ v, Homepage.lookup_last "Events" (Homepage.footer_items strip soup) = Some v ∧
       is_Some (int v).
Proof.
  rewrite extract_homepage_info_cases.
  destruct (Homepage.find_h1 soup) as [h1|].
  2:{ split; [by intros [r ?]|]. by intros [[? ?] _]. }
  destruct (decide _) as [Hp|Hp].
  2:{ split; [by intros [r ?]|]. by intros (_ & ? & _). }
  destruct (Homepage.lookup_last _ _) as [v|].
  2:{ split; [by intros [r ?]|]. by intros (_ & _ & _ & v & ? & _). }
  destruct (decide _) as [Hr|Hr].
  2:{ split; [by intros [r ?]|]. by intros (_ & _ & ? & _). }
  destruct (int v) as [n|] eqn:Hint.
  - split; [|by eexists]. intros _. split_and!; try done.
    exists v. by rewrite Hint.
  - split; [by intros [r ?]|].
    intros (_ & _ & _ & v' & [= <-] & [n Hn]). congruence.
Qed.

(** X14: what a reading that returns gives: the name is the stripped
    heading; the number of events is [int] of the value of the last
    footer statistic labelled "Events", whatever the record blocks hold;
    and the statistics map a key to the value of the last item with that
    key, footer statistics first and record blocks after them: a record
    overwrites a statistic of its label, also the one labelled
    "Events". *)
Theorem homepage_reading strip int soup event_name last_event_no event_stats :
  Homepage._extract_homepage_info strip int soup
    = inr (event_name, last_event_no, event_stats) →
  (∃ h1, Homepage.find_h1 soup = Some h1 ∧ event_name = strip h1) ∧
  (∃ v, Homepage.lookup_last "Events" (Homepage.footer_items strip soup) = Some v ∧
        int v = Some last_event_no) ∧
  (∀ k, event_stats !! k
        = Homepage.lookup_last k
            (Homepage.footer_items strip soup
               ++ Homepage.record_items strip soup)).
Proof.
  rewrite extract_homepage_info_cases.
  destruct (Homepage.find_h1 soup) as [h1|]; [|done].
  destruct (decide _) as [Hp|Hp]; [|done].
  destruct (Homepage.lookup_last _ _) as [v|] eqn:Hv; [|done].
  destruct (decide _) as [Hr|Hr]; [|done].
  destruct (int v) as [n|] eqn:Hint; [|done].
  intros [= <- <- <-]. split_and!.
  - by exists h1.
  - by exists v.
  - intros k. rewrite lookup_updates, lookup_empty.
    by destruct (Homepage.lookup_last k _).
Qed.

Lemma homepage_reading_witness :
  (∃ h1, Homepage.find_h1 Homepage.example_document = Some h1 ∧
         "Rothay Park parkrun" = Homepage.ascii_strip h1) ∧
  (∃ v, Homepage.lookup_last "Events"
          (Homepage.footer_items Homepage.ascii_strip Homepage.example_document)
          = Some v ∧
        Homepage.decimal v = Some 12) ∧
  (∀ k, (list_to_map
           [("Events", "many"); ("Average finish time", "00:29:30");
            ("Female record", "Ann 18:03"); ("Finishers", "3,402")]
           : gmap string string) !! k
        = Homepage.lookup_last k
            (Homepage.footer_items Homepage.ascii_strip Homepage.example_document
               ++ Homepage.record_items Homepage.ascii_strip
                    Homepage.example_document)).
Proof.
  apply (homepage_reading Homepage.ascii_strip Homepage.decimal
           Homepage.example_document).
  vm_compute; reflexivity.
Defined.

(** X15: which exception a reading that fails raises: [AttributeError]
    exactly when the heading is missing; [KeyError], of "Events", exactly
    when the heading is there, the footer statistics all split into two
    pieces and none is labelled "Events"; [ValueError] in the other cases:
    a footer statistic that does not split into two pieces, a record
    block without exactly two [span]s, or an "Events" value that [int]
    rejects. *)
Theorem homepage_errors strip int soup :
  (Homepage._extract_homepage_info strip int soup = inl Homepage.AttributeError ↔
   Homepage.find_h1 soup = None) ∧
  (∀ k, Homepage._extract_homepage_info strip int soup = inl (Homepage.KeyError k) ↔
        k = "Events" ∧ is_Some (Homepage.find_h1 soup) ∧
        Homepage.pairs (Homepage.footer_items strip soup) ∧
        Homepage.lookup_last "Events" (Homepage.footer_items strip soup) = None) ∧
  (Homepage._extract_homepage_info strip int soup = inl Homepage.ValueError ↔
   is_Some (Homepage.find_h1 soup) ∧
   (¬ Homepage.pairs (Homepage.footer_items strip soup) ∨
    (Homepage.pairs (Homepage.footer_items strip soup) ∧
     ∃ v, Homepage.lookup_last "Events" (Homepage.footer_items strip soup) = Some v ∧
          (¬ Homepage.pairs (Homepage.find_all_records soup) ∨ int v = None)))).
Proof.
  rewrite extract_homepage_info_cases.
  destruct (Homepage.find_h1 soup) as [h1|].
  2:{ split_and!; [done| |]; (split; [done|]).
      - by intros (_ & [? ?] & _).
      - by intros ([? ?] & _). }
  destruct (decide _) as [Hp|Hp].
  2:{ split_and!; [done| |].
      - intros k. split; [done|]. by intros (_ & _ & ? & _).
      - split; [|done]. intros _. split; [by eexists|by left]. }
  destruct (Homepage.lookup_last _ _) as [v|] eqn:Hv.
  2:{ split_and!; [done| |].
      - intros k. split; [by intros [= <-]|]. by intros (-> & _).
      - split; [done|]. intros (_ & [?|(_ & v & ? & _)]); done. }
  destruct (decide _) as [Hr|Hr].
  2:{ split_and!; [done| |].
      - intros k. split; [done|]. by intros (_ & _ & _ & ?).
      - split; [|done]. intros _. split; [by eexists|right].
        split; [done|]. exists v. split; [done|by left]. }
  destruct (int v) as [n|] eqn:Hint.
  - split_and!; [done| |].
    + intros k. split; [done|]. by intros (_ & _ & _ & ?).
    + split; [done|].
      intros (_ & [?|(_ & v' & [= <-] & [?|?])]); [done|done|congruence].
  - split_and!; [done| |].
    + intros k. split; [done|]. by intros (_ & _ & _ & ?).
    + split; [|done]. intros _. split; [by eexists|right].
      split; [done|]. exists v. split; [done|by right].
Qed.

(** A text without ":" or without " " is not cut. *)
Lemma split2_uncut value :
  free_of ":"%char value ∨ free_of " "%char value →
  Homepage.split2 ":"%char " "%char value = [value].
Proof.
  induction value as [|c value IH]; [done|]. intros Hfree.
  assert (free_of ":"%char value ∨ free_of " "%char value) as Hfree'.
  { destruct Hfree as [H|H]; [left|right];
      unfold free_of in *; cbn [String.list_ascii_of_string] in H;
      by apply Forall_cons in H as [_ H]. }
  specialize (IH Hfree'). cbn [Homepage.split2].
  destruct value as [|d value]; [done|].
  rewrite IH. destruct (decide _) as [[-> ->]|_]; [|done].
  destruct Hfree as [H|H];
    unfold free_of in H; cbn [String.list_ascii_of_string] in H.
  - by apply Forall_cons in H as [H _].
  - apply Forall_cons in H as [_ H]. by apply Forall_cons in H as [H _].
Qed.

Lemma split2_label_value label value :
  free_of ":"%char label →
  free_of ":"%char value ∨ free_of " "%char value →
  Homepage.split2 ":"%char " "%char
    (String.append label (String ":"%char (String " "%char value)))
  = [label; value].
Proof.
  intros Hlabel Hvalue. induction label as [|c label IH].
  - change (Homepage.split2 ":"%char " "%char
              (String ":"%char (String " "%char value)) = [EmptyString; value]).
    cbn [Homepage.split2].
    destruct (decide (":"%char = ":"%char ∧ " "%char = " "%char))
      as [_|Hno]; [|by destruct Hno].
    by rewrite split2_uncut.
  - unfold free_of in Hlabel. cbn [String.list_ascii_of_string] in Hlabel.
    apply Forall_cons in Hlabel as [Hc Hlabel].
    specialize (IH Hlabel).
    change (Homepage.split2 ":"%char " "%char
              (String c (String.append label
                 (String ":"%char (String " "%char value))))
            = [String c label; value]).
    destruct (String.append label (String ":"%char (String " "%char value)))
      as [|d rest] eqn:Hrest.
    { by destruct label. }
    cbn [Homepage.split2].
    destruct (decide (c = ":"%char ∧ d = " "%char)) as [[-> _]|_]; [done|].
    cbn [Homepage.split2] in IH. by rewrite IH.
Qed.

(** X16: a footer statistic whose text, stripped and without newlines,
    is [label ++ ": " ++ value], with no ":" in the label and no ":" or no
    blank in the value, is given to [dict] as the pair of label and
    value. *)
Theorem footer_item_of_line strip soup line label value :
  line ∈ Homepage.find_all_aStat soup →
  Homepage.remove Homepage.newline (strip line)
    = String.append label (String ":"%char (String " "%char value)) →
  free_of ":"%char label →
  free_of ":"%char value ∨ free_of " "%char value →
  [label; value] ∈ Homepage.footer_items strip soup.
Proof.
  intros Hline Htext Hlabel Hvalue. unfold Homepage.footer_items.
  apply list_elem_of_fmap. exists line. split; [|done]. rewrite Htext.
  symmetry. by apply split2_label_value.
Qed.

Lemma footer_item_of_line_witness :
  ["Average finish time"; "00:29:30"]
    ∈ Homepage.footer_items Homepage.ascii_strip Homepage.example_document.
Proof.
  apply (footer_item_of_line Homepage.ascii_strip Homepage.example_document
           "Average finish time: 00:29:30").
  - set_solver.
  - reflexivity.
  - unfold free_of. simpl. repeat constructor; done.
  - right. unfold free_of. simpl. repeat constructor; done.
Defined.
